(** * Websum: a web page summarizer (mini_project_s6_.py)

    A shallow embedding of the script's own logic: [clean_html],
    [load_document], [chunk_text] and the control flow of
    [streamlit_mode].  The libraries the script delegates to (requests,
    BeautifulSoup, the LangChain chain, FPDF, Streamlit) appear as an
    explicit [world] of oracles and as events of a trace. *)

From Stdlib Require Import List ZArith NArith Lia Bool String Ascii Arith.
Import ListNotations.

Set Implicit Arguments.

(* ================================================================= *)
(** * Python values *)

Module Py.

(** A Python [str] is a sequence of Unicode code points. *)
Definition char := N.
Definition str := list char.

(** A literal of the source, written as a Rocq string. *)
Definition lit (s : string) : str := map N_of_ascii (list_ascii_of_string s).

(** [str.isspace] for one code point (the table of CPython's
    [_PyUnicode_IsWhitespace]); [str.split()] and [str.strip()] both use it. *)
Definition isspace (c : char) : bool :=
  ((9 <=? c) && (c <=? 13) || (28 <=? c) && (c <=? 32)
   || (c =? 133) || (c =? 160) || (c =? 5760)
   || (8192 <=? c) && (c <=? 8202)
   || (c =? 8232) || (c =? 8233) || (c =? 8239) || (c =? 8287)
   || (c =? 12288))%N.

(** Exceptions are kept as their [str(e)] text, which is all the script
    ever reads of them.  Every oracle failure below is an instance of
    [Exception], the class the two [except] clauses of the script catch. *)
Inductive exn := Exception (msg : str).

Definition exn_str (e : exn) : str := match e with Exception m => m end.

Inductive result (A : Type) :=
| Ok (a : A)
| Raise (e : exn).
Arguments Ok {A} a.
Arguments Raise {A} e.

(** [s.startswith(prefix)] *)
Fixpoint startswith (s prefix : str) : bool :=
  match prefix, s with
  | [], _ => true
  | p :: ps, c :: cs => (p =? c)%N && startswith cs ps
  | _ :: _, [] => false
  end.

(** [s.lstrip()], and [s.strip()] as stripping both ends. *)
Fixpoint lstrip (s : str) : str :=
  match s with
  | [] => []
  | c :: s' => if isspace c then lstrip s' else s
  end.

Definition strip (s : str) : str := rev (lstrip (rev (lstrip s))).

(** [s.split()] with no separator: the scanner of CPython's
    [split_whitespace], which skips runs of white space and cuts a word at
    the next white space.  [cur] is the word being scanned, last character
    first. *)
Fixpoint split_from (cur : str) (s : str) : list str :=
  match s with
  | [] => match cur with [] => [] | _ :: _ => [rev cur] end
  | c :: s' =>
      if isspace c
      then match cur with
           | [] => split_from [] s'
           | _ :: _ => rev cur :: split_from [] s'
           end
      else split_from (c :: cur) s'
  end.

Definition split (s : str) : list str := split_from [] s.

(** [sep.join(items)]: the items in order, [sep] written before every item
    but the first. *)
Definition join_step (sep : str) (acc : bool * str) (item : str) : bool * str :=
  let (first, out) := acc in
  (false, if first then item else out ++ sep ++ item).

Definition join (sep : str) (items : list str) : str :=
  snd (fold_left (join_step sep) items (true, [])).

(** [len(l)] *)
Definition len {A} (l : list A) : Z := Z.of_nat (List.length l).

(** [range(start, stop, step)]: the length is computed as CPython's
    [compute_range_length] does; a zero step is a [ValueError]. *)
Definition range_length (start stop step : Z) : Z :=
  if (0 <? step)%Z
  then (if (start <? stop)%Z then (stop - start - 1) / step + 1 else 0)%Z
  else (if (stop <? start)%Z then (start - stop - 1) / (- step) + 1 else 0)%Z.

Definition range (start stop step : Z) : result (list Z) :=
  if (step =? 0)%Z
  then Raise (Exception (lit "range() arg 3 must not be zero"))
  else Ok (map (fun k => (start + Z.of_nat k * step)%Z)
               (seq 0 (Z.to_nat (range_length start stop step)))).

(** [l[a:b]]: negative bounds count from the end, then both are clamped. *)
Definition slice_bound {A} (l : list A) (i : Z) : nat :=
  Z.to_nat (if (i <? 0)%Z then Z.max 0 (i + len l) else Z.min i (len l)).

Definition slice {A} (l : list A) (a b : Z) : list A :=
  let lo := slice_bound l a in
  let hi := slice_bound l b in
  firstn (hi - lo) (skipn lo l).

End Py.

Import Py.

(* ================================================================= *)
(** * The chunker *)

(** [chunk_text(text, max_tokens=500)] *)
Definition chunk_text (text : str) (max_tokens : Z) : result (list str) :=
  let words := split text in
  match range 0 (len words) max_tokens with
  | Raise e => Raise e
  | Ok idx =>
      Ok (map (fun i => join (lit " ") (slice words i (i + max_tokens))) idx)
  end.

Definition default_max_tokens : Z := 500.

(** The vocabulary of the chunker's contract.  A word is not empty and has
    no white space inside; the words of a text are [split text]; the
    [k]-th window of [n] words covers the word positions from [k * n]
    (included) to [k * n + n] (excluded). *)
Definition is_word (x : str) : Prop :=
  x <> [] /\ forallb (fun c => negb (isspace c)) x = true.

Definition word_count (chunk : str) : nat := List.length (split chunk).

Definition window (n : nat) (words : list str) (k : nat) : list str :=
  firstn n (skipn (k * n) words).

(** The number of indices of [range(0, len(words), max_tokens)]. *)
Definition count (words : list str) (max_tokens : Z) : nat :=
  Z.to_nat (range_length 0 (len words) max_tokens).

(** The aggregate of line 119: ["\n\n".join(summaries)]. *)
Definition blank_line : str := [10; 10]%N.

Definition aggregate (summaries : list str) : str := join blank_line summaries.

(** The aggregate as the contract words it: the first summary, then every
    further summary after a blank-line separator. *)

Fixpoint blank_line_separated (summaries : list str) : str :=
  match summaries with
  | [] => []
  | s :: rest =>
      match rest with
      | [] => s
      | _ :: _ => s ++ blank_line ++ blank_line_separated rest
      end
  end.

(* ================================================================= *)
(** * The external collaborators *)

(** What the script reads of a [requests.Response]: the status, the body,
    and the text of the [HTTPError] that [raise_for_status] builds from the
    status, the reason and the URL. *)
Record response := {
  status_code : Z;
  text : str;
  http_error_msg : str
}.

(** [Response.raise_for_status()] of requests: an [HTTPError] for a client
    error (400 to 499) or a server error (500 to 599), nothing otherwise. *)
Definition raise_for_status (r : response) : result unit :=
  if ((400 <=? status_code r) && (status_code r <? 600))%Z
  then Raise (Exception (http_error_msg r))
  else Ok tt.

(** What the script reads of the chain's answer:
    [getattr(summary, "content", str(summary))]. *)
Record message := {
  content : option str;
  message_str : str
}.

Definition result_text (m : message) : str :=
  match content m with
  | Some c => c
  | None => message_str m
  end.

(** One run's view of the outside: every call either returns or raises.
    - [requests_get url] is [requests.get(url, headers=headers, timeout=10)];
      a transport error or a timeout is a raise;
    - [soup_get_text html] is
      [BeautifulSoup(html, "html.parser").get_text(separator=" ")];
    - [build_chain] is the body of [setup_summarization_chain]
      ([PromptTemplate.from_template], [ChatOllama(...)], the pipe of the
      two): it returns the chain or raises;
    - [chain_invoke k chunk] is the [k]-th call (from 0) of
      [llm_chain.invoke({"text": chunk})] in the run, on the chain that
      [build_chain] returned;
    - [pdf_output text] is the FPDF layout of [generate_pdf], returning the
      path of the temporary file. *)
Record world := {
  requests_get : str -> result response;
  soup_get_text : str -> result str;
  build_chain : result unit;
  chain_invoke : nat -> str -> result message;
  pdf_output : str -> result str
}.

(** What a run does that can be observed: the Streamlit calls, the log
    records, and the entries into the pipeline stages. *)
Inductive event :=
| St_title (body : str)
| St_text_input (label : str)
| St_button (label : str)
| St_warning (body : str)
| St_spinner (body : str)
| St_error (body : str)
| St_success (body : str)
| St_markdown (body : str)
| St_download_button (label path : str)
| Logging_error (msg : str)
| Call_load_document (url : str)
| Call_setup_summarization_chain
| Call_chunk_text (text : str)
| Call_invoke (chunk : str)
| Call_generate_pdf (summary_text : str).

(** The store of a run: the ["summary"] key of [st.session_state]
    ([None] while the key is absent) and the events so far, oldest first. *)
Record state := {
  summary : option str;
  trace : list event
}.

(** Computations of the script: they read and write the store and either
    return or raise. *)
Definition M (A : Type) := state -> state * result A.

Definition ret {A} (a : A) : M A := fun s => (s, Ok a).

Definition bind {A B} (m : M A) (k : A -> M B) : M B :=
  fun s =>
    match m s with
    | (s', Ok a) => k a s'
    | (s', Raise e) => (s', Raise e)
    end.

Notation "x <- m ;; k" := (bind m (fun x => k))
  (at level 61, m at next level, right associativity).
Notation "m ;;; k" := (bind m (fun _ => k))
  (at level 61, right associativity).

(** [try: body  except Exception as e: handler(e)] *)
Definition try_except {A} (body : M A) (handler : exn -> M A) : M A :=
  fun s =>
    match body s with
    | (s', Ok a) => (s', Ok a)
    | (s', Raise e) => handler e s'
    end.

Definition lift {A} (r : result A) : M A := fun s => (s, r).

Definition emit (ev : event) : M unit :=
  fun s => ({| summary := summary s; trace := trace s ++ [ev] |}, Ok tt).

(** [st.session_state["summary"]], a [KeyError] when the key is absent. *)
Definition get_summary : M str :=
  fun s =>
    match summary s with
    | Some v => (s, Ok v)
    | None => (s, Raise (Exception (lit "'summary'")))
    end.

(** [st.session_state["summary"] = v] *)
Definition set_summary (v : str) : M unit :=
  fun s => ({| summary := Some v; trace := trace s |}, Ok tt).

Definition is_empty (s : str) : bool :=
  match s with [] => true | _ :: _ => false end.

Section Script.

Variable w : world.

(** [clean_html(html_content)] *)
Definition clean_html (html_content : str) : M str :=
  visible <- lift (soup_get_text w html_content) ;;
  ret (strip visible).

Definition no_content : str := lit "No content extracted. Try a different URL.".

(** [load_document(url)] *)
Definition load_document (url : str) : M str :=
  emit (Call_load_document url) ;;;
  try_except
    (response <- lift (requests_get w url) ;;
     lift (raise_for_status response) ;;;
     text_content <- clean_html (text response) ;;
     if is_empty text_content
     then ret no_content
     else ret text_content)
    (fun e =>
       emit (Logging_error (lit "Failed to load document: " ++ exn_str e)) ;;;
       ret (lit "Error loading document: " ++ exn_str e)).

(** [generate_pdf(summary_text)] *)
Definition generate_pdf (summary_text : str) : M str :=
  emit (Call_generate_pdf summary_text) ;;;
  lift (pdf_output w summary_text).

(** The body of [for chunk in ...] (lines 110 to 117), for the [k]-th
    chunk, with [summaries] the list built so far. *)
Definition summarize_chunk (k : nat) (chunk : str) (summaries : list str)
  : M (list str) :=
  try_except
    (emit (Call_invoke chunk) ;;;
     summary <- lift (chain_invoke w k chunk) ;;
     ret (summaries ++ [result_text summary]))
    (fun e =>
       emit (Logging_error (lit "Error in summarization: " ++ exn_str e)) ;;;
       ret (summaries ++ [lit "Error processing chunk: " ++ exn_str e])).

Fixpoint summarize_loop (k : nat) (chunks : list str) (summaries : list str)
  : M (list str) :=
  match chunks with
  | [] => ret summaries
  | chunk :: rest =>
      summaries' <- summarize_chunk k chunk summaries ;;
      summarize_loop (S k) rest summaries'
  end.

(** Lines 122 to 134: the summary region and the download button. *)
Definition render_summary : M unit :=
  current <- get_summary ;;
  if is_empty current
  then ret tt
  else
    emit (St_markdown (lit "### " ++ [128466; 65039]%N ++ lit " Summary")) ;;;
    emit (St_markdown current) ;;;
    pdf_path <- generate_pdf current ;;
    emit (St_download_button
            (128229%N :: lit " Download Summary as PDF") pdf_path).

(** [setup_summarization_chain()] *)
Definition setup_summarization_chain : M unit :=
  emit Call_setup_summarization_chain ;;;
  lift (build_chain w).

(** Lines 106 to 120: the summarizing stage.  The call of line 107 is
    outside the [try] of the loop: what it raises leaves the stage. *)
Definition summarize_document (document_text : str) : M unit :=
  emit (St_spinner (lit "Summarizing...")) ;;;
  setup_summarization_chain ;;;
  emit (Call_chunk_text document_text) ;;;
  chunks <- lift (chunk_text document_text default_max_tokens) ;;
  summaries <- summarize_loop 0 chunks [] ;;
  set_summary (aggregate summaries) ;;;
  emit (St_success (9989%N :: lit " Summary generated successfully!")).

(** [streamlit_mode()], for one execution of the script: [url] is what
    [st.text_input] returns and [clicked] what [st.button] returns.  The
    [return] of line 104 ends the run, so that branch does not go on to
    [render_summary]. *)
Definition streamlit_mode (url : str) (clicked : bool) : M unit :=
  emit (St_title (128196%N :: lit " WEBSUM: Web Page Summarizer")) ;;;
  (fun s => match summary s with
            | None => set_summary [] s
            | Some _ => (s, Ok tt)
            end) ;;;
  emit (St_text_input (lit "Enter URL to summarize:")) ;;;
  emit (St_button (lit "Summarize")) ;;;
  if clicked
  then
    if is_empty url
    then
      emit (St_warning (lit "Please enter a valid URL.")) ;;;
      render_summary
    else
      emit (St_spinner (lit "Fetching document...")) ;;;
      document_text <- load_document url ;;
      if startswith document_text (lit "Error")
      then emit (St_error document_text)
      else
        summarize_document document_text ;;;
        render_summary
  else render_summary.

End Script.

(** Events that enter the chunker or the summarizer. *)
Definition enters_summarization (ev : event) : bool :=
  match ev with
  | Call_setup_summarization_chain | Call_chunk_text _ | Call_invoke _ => true
  | _ => false
  end.

Definition enters_loader (ev : event) : bool :=
  match ev with
  | Call_load_document _ => true
  | _ => false
  end.

Definition pipeline_call (ev : event) : bool :=
  enters_loader ev || enters_summarization ev.

Definition is_spinner (ev : event) : bool :=
  match ev with
  | St_spinner _ => true
  | _ => false
  end.

Definition is_success (ev : event) : bool :=
  match ev with
  | St_success _ => true
  | _ => false
  end.


(** A session starts a run with [slot] in the summary key and no event. *)
Definition start (slot : option str) : state :=
  {| summary := slot; trace := [] |}.

(** The summary key after lines 90 and 91. *)
Definition initialised (slot : option str) : option str :=
  match slot with
  | None => Some []
  | Some v => Some v
  end.

(** ** What one run of the loop leaves behind *)

(** The entry the loop appends for the [k]-th chunk. *)
Definition chunk_summary (w : world) (k : nat) (chunk : str) : str :=
  match chain_invoke w k chunk with
  | Ok m => result_text m
  | Raise e => lit "Error processing chunk: " ++ exn_str e
  end.

Fixpoint summaries_from (w : world) (k : nat) (chunks : list str) : list str :=
  match chunks with
  | [] => []
  | chunk :: rest => chunk_summary w k chunk :: summaries_from w (S k) rest
  end.

(** The events of the loop from the [k]-th chunk on. *)
Fixpoint loop_events (w : world) (k : nat) (chunks : list str) : list event :=
  match chunks with
  | [] => []
  | chunk :: rest =>
      Call_invoke chunk
      :: match chain_invoke w k chunk with
         | Ok _ => []
         | Raise e =>
             [Logging_error (lit "Error in summarization: " ++ exn_str e)]
         end
      ++ loop_events w (S k) rest
  end.

(** The events of lines 88 to 95, and of the summary region. *)
Definition prologue : list event :=
  [ St_title (128196%N :: lit " WEBSUM: Web Page Summarizer");
    St_text_input (lit "Enter URL to summarize:");
    St_button (lit "Summarize") ].

Definition is_render_event (ev : event) : bool :=
  match ev with
  | St_markdown _ | Call_generate_pdf _ | St_download_button _ _ => true
  | _ => false
  end.

(** What the [try] block of [load_document] comes to: the text it returns,
    or the exception its handler receives. *)
Inductive fetched (w : world) (url : str) : result str -> Prop :=
| fetched_get_raises e :
    requests_get w url = Raise e ->
    fetched w url (Raise e)
| fetched_bad_status r e :
    requests_get w url = Ok r ->
    raise_for_status r = Raise e ->
    fetched w url (Raise e)
| fetched_parse_raises r e :
    requests_get w url = Ok r ->
    raise_for_status r = Ok tt ->
    soup_get_text w (text r) = Raise e ->
    fetched w url (Raise e)
| fetched_empty r visible :
    requests_get w url = Ok r ->
    raise_for_status r = Ok tt ->
    soup_get_text w (text r) = Ok visible ->
    strip visible = [] ->
    fetched w url (Ok no_content)
| fetched_text r visible :
    requests_get w url = Ok r ->
    raise_for_status r = Ok tt ->
    soup_get_text w (text r) = Ok visible ->
    strip visible <> [] ->
    fetched w url (Ok (strip visible)).

(** The string [load_document] returns and the log record it writes. *)
Definition returned (r : result str) : str :=
  match r with
  | Ok s => s
  | Raise e => lit "Error loading document: " ++ exn_str e
  end.

Definition logged (r : result str) : list event :=
  match r with
  | Ok _ => []
  | Raise e => [Logging_error (lit "Failed to load document: " ++ exn_str e)]
  end.

Definition summarizing_events (w : world) (doc : str) (chunks : list str)
  : list event :=
  [ St_spinner (lit "Summarizing...");
    Call_setup_summarization_chain;
    Call_chunk_text doc ]
  ++ loop_events w 0 chunks
  ++ [ St_success (9989%N :: lit " Summary generated successfully!") ].

(** The store after lines 88 to 95, from the start of a run. *)
Definition after_prologue (slot : option str) : state :=
  {| summary := initialised slot; trace := prologue |}.

Definition fetching : list event :=
  [ St_spinner (lit "Fetching document...") ].

Definition is_log (ev : event) : bool :=
  match ev with
  | Logging_error _ => true
  | _ => false
  end.

(** ** Sample worlds *)

Definition plain_message (s : str) : message :=
  {| content := Some s; message_str := s |}.

(** A server that answers 304 Not Modified with a body. *)
Definition world_not_modified : world := {|
  requests_get := fun _ =>
    Ok {| status_code := 304;
          text := lit "<p>hello world</p>";
          http_error_msg := [] |};
  soup_get_text := fun _ => Ok (lit "hello world");
  build_chain := Ok tt;
  chain_invoke := fun _ chunk => Ok (plain_message chunk);
  pdf_output := fun _ => Ok (lit "/tmp/summary.pdf")
|}.

(** A server that is down. *)
Definition world_refused : world := {|
  requests_get := fun _ => Raise (Exception (lit "Connection refused"));
  soup_get_text := fun _ => Ok [];
  build_chain := Ok tt;
  chain_invoke := fun _ chunk => Ok (plain_message chunk);
  pdf_output := fun _ => Ok (lit "/tmp/summary.pdf")
|}.

(** A page with markup and no visible text. *)
Definition world_empty_page : world := {|
  requests_get := fun _ =>
    Ok {| status_code := 200;
          text := lit "<html><body></body></html>";
          http_error_msg := [] |};
  soup_get_text := fun _ => Ok (lit " ");
  build_chain := Ok tt;
  chain_invoke := fun _ chunk => Ok (plain_message (lit "A summary."));
  pdf_output := fun _ => Ok (lit "/tmp/summary.pdf")
|}.

(** A page, fetched with status 200, whose visible text starts with the
    word Error. *)
Definition world_error_article : world := {|
  requests_get := fun _ =>
    Ok {| status_code := 200;
          text := lit "<h1>Error handling in Python</h1>";
          http_error_msg := [] |};
  soup_get_text := fun _ => Ok (lit "Error handling in Python");
  build_chain := Ok tt;
  chain_invoke := fun _ chunk => Ok (plain_message (lit "A summary."));
  pdf_output := fun _ => Ok (lit "/tmp/summary.pdf")
|}.

(** A page of 1001 words, and a backend that fails on its second call. *)
Definition long_text : str := List.concat (repeat (lit "w ") 1001).

Definition world_second_call_fails : world := {|
  requests_get := fun _ =>
    Ok {| status_code := 200; text := long_text; http_error_msg := [] |};
  soup_get_text := fun html => Ok html;
  build_chain := Ok tt;
  chain_invoke := fun k chunk =>
    if Nat.eqb k 1
    then Raise (Exception (lit "model timed out"))
    else Ok (plain_message (lit "A summary."));
  pdf_output := fun _ => Ok (lit "/tmp/summary.pdf")
|}.

Definition sample_url : str := lit "http://example.org/page".

(** The chunks of [long_text]: twice 500 words, then one. *)
Definition five_hundred_words : str :=
  join (lit " ") (repeat (lit "w") 500).

Definition long_text_chunks : list str :=
  [five_hundred_words; five_hundred_words; lit "w"].

(** The same page and backend, with a PDF layout that fails. *)
Definition world_second_call_and_pdf_fail : world := {|
  requests_get := requests_get world_second_call_fails;
  soup_get_text := soup_get_text world_second_call_fails;
  build_chain := Ok tt;
  chain_invoke := chain_invoke world_second_call_fails;
  pdf_output := fun _ => Raise (Exception (lit "latin-1 codec error"))
|}.

(** A page that loads, with a chain that cannot be set up. *)
Definition world_no_chain : world := {|
  requests_get := fun _ =>
    Ok {| status_code := 200;
          text := lit "<p>hello world</p>";
          http_error_msg := [] |};
  soup_get_text := fun _ => Ok (lit "hello world");
  build_chain := Raise (Exception (lit "No module named langchain_ollama"));
  chain_invoke := fun _ _ => Raise (Exception (lit "connection refused"));
  pdf_output := fun _ => Ok (lit "/tmp/summary.pdf")
|}.

(* ================================================================= *)
(** * The PDF script and the summary region *)

(** [s.split(sep)] for a separator of one character, as [generate_pdf]
    uses it with a line break: every occurrence cuts, and empty pieces are
    kept.  [cur] is the piece being scanned, last character first. *)
Fixpoint split_on_from (sep : char) (cur : str) (s : str) : list str :=
  match s with
  | [] => [rev cur]
  | c :: s' =>
      if (c =? sep)%N
      then rev cur :: split_on_from sep [] s'
      else split_on_from sep (c :: cur) s'
  end.

Definition split_on (sep : char) (s : str) : list str :=
  split_on_from sep [] s.

Definition newline : char := 10%N.

(** The calls [generate_pdf] makes on the FPDF object and on the temporary
    file, in order (lines 67 to 78); [pdf_output] of the world stands for
    what the library does with them. *)
Inductive fpdf_call :=
| Fpdf_new
| Add_page
| Set_auto_page_break (auto : bool) (margin : Z)
| Set_font (family : str) (size : Z)
| Multi_cell (width height : Z) (txt : str)
| Named_temporary_file (delete : bool) (suffix : str)
| Output.

Definition generate_pdf_calls (summary_text : str) : list fpdf_call :=
  [ Fpdf_new; Add_page; Set_auto_page_break true 15;
    Set_font (lit "Arial") 12 ]
  ++ map (Multi_cell 0 10) (split_on newline summary_text)
  ++ [ Named_temporary_file false (lit ".pdf"); Output ].

Definition cell_texts (calls : list fpdf_call) : list str :=
  flat_map (fun c => match c with
                     | Multi_cell _ _ txt => [txt]
                     | _ => []
                     end) calls.

(** What lines 122 to 134 show for the stored summary [v], and how they
    end. *)
Definition render_events (w : world) (v : str) : list event :=
  if is_empty v
  then []
  else
    [ St_markdown (lit "### " ++ [128466; 65039]%N ++ lit " Summary");
      St_markdown v;
      Call_generate_pdf v ]
    ++ match pdf_output w v with
       | Ok pdf_path =>
           [ St_download_button
               (128229%N :: lit " Download Summary as PDF") pdf_path ]
       | Raise _ => []
       end.

Definition render_result (w : world) (v : str) : result unit :=
  if is_empty v
  then Ok tt
  else match pdf_output w v with
       | Ok _ => Ok tt
       | Raise e => Raise e
       end.

(** The chunks sent to the backend in a trace, in the order of the calls. *)
Definition invoked (t : list event) : list str :=
  flat_map (fun ev => match ev with
                      | Call_invoke chunk => [chunk]
                      | _ => []
                      end) t.

(** The records written with [logging.error] in a trace. *)
Definition logged_errors (t : list event) : list str :=
  flat_map (fun ev => match ev with
                      | Logging_error msg => [msg]
                      | _ => []
                      end) t.

(** The comprehension of line 62 on a list of strings that is already
    there: [[" ".join(items[i:i+size]) for i in range(0, len(items), size)]].
    [chunk_text] is this comprehension on [text.split()]. *)
Definition group_join (items : list str) (size : Z) : result (list str) :=
  match range 0 (len items) size with
  | Raise e => Raise e
  | Ok idx =>
      Ok (map (fun i => join (lit " ") (slice items i (i + size))) idx)
  end.

(** The string in the summary key once lines 90 and 91 have run. *)
Definition stored (slot : option str) : str :=
  match slot with
  | Some v => v
  | None => []
  end.

(** A page that loads, with a backend that is down. *)
Definition world_backend_down : world := {|
  requests_get := fun _ =>
    Ok {| status_code := 200;
          text := lit "<p>hello world</p>";
          http_error_msg := [] |};
  soup_get_text := fun _ => Ok (lit " hello  world ");
  build_chain := Ok tt;
  chain_invoke := fun _ _ => Raise (Exception (lit "connection refused"));
  pdf_output := fun _ => Ok (lit "/tmp/summary.pdf")
|}.

(** A page that loads and is summarized, with a PDF layout that fails. *)
Definition world_pdf_fails : world := {|
  requests_get := fun _ =>
    Ok {| status_code := 200;
          text := lit "<p>hello world</p>";
          http_error_msg := [] |};
  soup_get_text := fun _ => Ok (lit "hello world");
  build_chain := Ok tt;
  chain_invoke := fun _ chunk => Ok (plain_message (lit "A summary."));
  pdf_output := fun _ => Raise (Exception (lit "latin-1 codec error"))
|}.

(** A page whose markup the parser rejects. *)
Definition world_parser_fails : world := {|
  requests_get := fun _ =>
    Ok {| status_code := 200; text := lit "<p>"; http_error_msg := [] |};
  soup_get_text := fun _ => Raise (Exception (lit "parser error"));
  build_chain := Ok tt;
  chain_invoke := fun _ chunk => Ok (plain_message (lit "A summary."));
  pdf_output := fun _ => Ok (lit "/tmp/summary.pdf")
|}.

(** A backend that answers with an empty text. *)
Definition world_silent_backend : world := {|
  requests_get := fun _ =>
    Ok {| status_code := 200;
          text := lit "<p>hello world</p>";
          http_error_msg := [] |};
  soup_get_text := fun _ => Ok (lit "hello world");
  build_chain := Ok tt;
  chain_invoke := fun _ _ => Ok (plain_message []);
  pdf_output := fun _ => Ok (lit "/tmp/summary.pdf")
|}.

(** Rounding up the quotient of two integers. *)
Definition ceil_div (a b : Z) : Z := ((a + b - 1) / b)%Z.

(* ================================================================= *)
(** * Joining and splitting *)

Module JoinSplit.

Lemma join_fold_false (sep : str) (items : list str) (out : str) :
  fold_left (join_step sep) items (false, out)
  = (false, out ++ List.concat (map (fun t => sep ++ t) items)).
Proof.
  revert out; induction items as [|x r IH]; intro out; simpl.
  - now rewrite app_nil_r.
  - rewrite IH. now rewrite <- ?app_assoc.
Qed.

Lemma join_nil (sep : str) : join sep [] = [].
Proof. reflexivity. Qed.

Lemma join_cons (sep x : str) (r : list str) :
  join sep (x :: r) = x ++ List.concat (map (fun t => sep ++ t) r).
Proof.
  unfold join; simpl. now rewrite join_fold_false.
Qed.

Lemma join_cons_cons (sep x y : str) (r : list str) :
  join sep (x :: y :: r) = x ++ sep ++ join sep (y :: r).
Proof.
  rewrite !join_cons; simpl. now rewrite <- app_assoc.
Qed.

Lemma join_app (sep : str) (a b : list str) :
  a <> [] -> b <> [] ->
  join sep (a ++ b) = join sep a ++ sep ++ join sep b.
Proof.
  intros Ha Hb.
  destruct a as [|x a]; [congruence|].
  destruct b as [|y b]; [congruence|].
  simpl. rewrite !join_cons, map_app, concat_app; simpl.
  now rewrite <- ?app_assoc.
Qed.

(** Joining the joined groups is joining all the items, as long as no
    group is empty. *)
Lemma join_concat (sep : str) (groups : list (list str)) :
  Forall (fun g => g <> []) groups ->
  join sep (map (join sep) groups) = join sep (List.concat groups).
Proof.
  induction 1 as [|g gs Hg Hgs IH]; [reflexivity|].
  destruct gs as [|g' gs].
  - simpl. rewrite app_nil_r. now rewrite join_cons; simpl; rewrite app_nil_r.
  - change (map (join sep) (g :: g' :: gs))
      with (join sep g :: join sep g' :: map (join sep) gs).
    rewrite join_cons_cons.
    change (join sep g' :: map (join sep) gs) with (map (join sep) (g' :: gs)).
    rewrite IH.
    change (List.concat (g :: g' :: gs)) with (g ++ List.concat (g' :: gs)).
    rewrite join_app; auto.
    inversion Hgs; subst. simpl.
    destruct g'; [congruence | discriminate].
Qed.

Lemma split_from_words (s cur : str) :
  forallb (fun c => negb (isspace c)) cur = true ->
  Forall is_word (split_from cur s).
Proof.
  revert cur; induction s as [|c s IH]; intros cur Hcur; simpl.
  - destruct cur as [|d cur]; constructor; [|constructor].
    split.
    + intro E. apply (f_equal (@rev char)) in E.
      rewrite rev_involutive in E. discriminate.
    + rewrite forallb_forall in *. intros y Hy. apply Hcur.
      now apply in_rev.
  - destruct (isspace c) eqn:Hc.
    + destruct cur as [|d cur]; [now apply IH|].
      constructor; [|now apply IH].
      split.
      * intro E. apply (f_equal (@rev char)) in E.
        rewrite rev_involutive in E. discriminate.
      * rewrite forallb_forall in *. intros y Hy. apply Hcur.
        now apply in_rev.
    + apply IH. simpl. now rewrite Hc.
Qed.

Lemma split_words (s : str) : Forall is_word (split s).
Proof. now apply split_from_words. Qed.

Lemma split_from_word (x s cur : str) :
  forallb (fun c => negb (isspace c)) x = true ->
  split_from cur (x ++ s) = split_from (rev x ++ cur) s.
Proof.
  revert cur; induction x as [|c x IH]; intros cur Hx; [reflexivity|].
  simpl in Hx. apply andb_true_iff in Hx as [Hc Hx].
  apply negb_true_iff in Hc.
  simpl. rewrite Hc, IH by assumption.
  now rewrite <- app_assoc.
Qed.

Lemma split_join_from (x : str) (r : list str) :
  is_word x -> Forall is_word r ->
  split_from [] (x ++ List.concat (map (fun t => lit " " ++ t) r)) = x :: r.
Proof.
  intros Hx Hr; revert x Hx; induction Hr as [|y r Hy Hr IH]; intros x [Hne Hx].
  - simpl. rewrite app_nil_r.
    rewrite <- (app_nil_r x) at 1.
    rewrite split_from_word by assumption. simpl. rewrite app_nil_r.
    destruct (rev x) eqn:E.
    + apply (f_equal (@rev char)) in E. rewrite rev_involutive in E.
      simpl in E. congruence.
    + now rewrite <- E, rev_involutive.
  - rewrite split_from_word by assumption. rewrite app_nil_r.
    simpl.
    destruct (rev x) eqn:E.
    + apply (f_equal (@rev char)) in E. rewrite rev_involutive in E.
      simpl in E. congruence.
    + rewrite <- E, rev_involutive. f_equal. now apply IH.
Qed.

(** Splitting the space-join of words gives the words back. *)
Lemma split_join (ws : list str) :
  Forall is_word ws -> split (join (lit " ") ws) = ws.
Proof.
  intros H. destruct H as [|x r Hx Hr]; [reflexivity|].
  rewrite join_cons. now apply split_join_from.
Qed.

Lemma split_all_space (s : str) :
  forallb isspace s = true -> split s = [].
Proof.
  unfold split. induction s as [|c s IH]; [reflexivity|].
  simpl. intros H. apply andb_true_iff in H as [Hc Hs].
  rewrite Hc. now apply IH.
Qed.

End JoinSplit.

(* ================================================================= *)
(** * The windows of the chunker *)

Module Chunker.

Import JoinSplit.

Lemma firstn_add {A} (a b : nat) (l : list A) :
  firstn (a + b) l = firstn a l ++ firstn b (skipn a l).
Proof.
  revert l; induction a as [|a IH]; intros l; [reflexivity|].
  destruct l as [|x l]; simpl.
  - now rewrite firstn_nil.
  - now rewrite IH.
Qed.

Lemma count_nil (max_tokens : Z) : count [] max_tokens = 0.
Proof.
  unfold count, range_length, len; simpl.
  destruct (0 <? max_tokens)%Z; reflexivity.
Qed.

Lemma count_bounds (words : list str) (max_tokens : Z) :
  (0 < max_tokens)%Z -> words <> [] ->
  let n := Z.to_nat max_tokens in
  let c := count words max_tokens in
  0 < c /\ (c - 1) * n < List.length words /\ List.length words <= c * n.
Proof.
  intros Hpos Hne n c.
  assert (HL : 0 < List.length words)
    by (destruct words; [congruence | simpl; lia]).
  unfold c, count, range_length, len.
  replace (0 <? max_tokens)%Z with true by (symmetry; now apply Z.ltb_lt).
  replace (0 <? Z.of_nat (List.length words))%Z with true
    by (symmetry; apply Z.ltb_lt; lia).
  set (L := Z.of_nat (List.length words)).
  set (q := ((L - 0 - 1) / max_tokens)%Z).
  assert (Hq0 : (0 <= q)%Z) by (apply Z.div_pos; lia).
  assert (Hlo : (max_tokens * q <= L - 0 - 1)%Z)
    by (apply Z.mul_div_le; lia).
  assert (Hhi : (L - 0 - 1 < max_tokens * Z.succ q)%Z)
    by (apply Z.mul_succ_div_gt; lia).
  assert (Hn : Z.of_nat n = max_tokens) by (unfold n; lia).
  replace (Z.to_nat (q + 1)) with (S (Z.to_nat q)) by lia.
  simpl. rewrite Nat.sub_0_r.
  repeat split; [lia | |].
  - apply Nat2Z.inj_lt. rewrite Nat2Z.inj_mul, Hn, Z2Nat.id by lia.
    fold L. lia.
  - apply Nat2Z.inj_le. rewrite Nat2Z.inj_add, Nat2Z.inj_mul, Hn, Z2Nat.id by lia.
    fold L. lia.
Qed.

Lemma range_positive (stop step : Z) :
  (0 < step)%Z ->
  range 0 stop step
  = Ok (map (fun k => (Z.of_nat k * step)%Z)
            (seq 0 (Z.to_nat (range_length 0 stop step)))).
Proof.
  intros Hpos. unfold range.
  replace (step =? 0)%Z with false by (symmetry; apply Z.eqb_neq; lia).
  f_equal.
Qed.

(** The slice the comprehension takes at index [k * max_tokens] is the
    [k]-th window. *)
Lemma slice_window (words : list str) (max_tokens : Z) (k : nat) :
  (0 < max_tokens)%Z ->
  slice words (Z.of_nat k * max_tokens)
        (Z.of_nat k * max_tokens + max_tokens)
  = window (Z.to_nat max_tokens) words k.
Proof.
  intros Hpos. unfold slice, slice_bound, window, len.
  set (n := Z.to_nat max_tokens).
  assert (Hn : max_tokens = Z.of_nat n) by (unfold n; lia).
  rewrite Hn.
  replace (Z.of_nat k * Z.of_nat n <? 0)%Z with false
    by (symmetry; apply Z.ltb_ge; lia).
  replace (Z.of_nat k * Z.of_nat n + Z.of_nat n <? 0)%Z with false
    by (symmetry; apply Z.ltb_ge; lia).
  set (L := List.length words).
  replace (Z.to_nat (Z.min (Z.of_nat k * Z.of_nat n) (Z.of_nat L)))
    with (Nat.min (k * n) L) by lia.
  replace (Z.to_nat (Z.min (Z.of_nat k * Z.of_nat n + Z.of_nat n) (Z.of_nat L)))
    with (Nat.min (k * n + n) L) by lia.
  destruct (Nat.le_gt_cases (k * n) L) as [Hle | Hgt].
  - rewrite (Nat.min_l (k * n) L) by assumption.
    destruct (Nat.le_gt_cases (k * n + n) L) as [Hle' | Hgt'].
    + rewrite Nat.min_l by assumption. f_equal. lia.
    + rewrite Nat.min_r by lia.
      rewrite !firstn_all2; auto; rewrite length_skipn; fold L; lia.
  - rewrite (Nat.min_r (k * n) L) by lia.
    rewrite !skipn_all2 by (fold L; lia).
    now rewrite !firstn_nil.
Qed.

(** What [chunk_text] returns for a positive [max_tokens]. *)
Lemma chunk_text_windows (text : str) (max_tokens : Z) :
  (0 < max_tokens)%Z ->
  chunk_text text max_tokens
  = Ok (map (fun k => join (lit " ")
                           (window (Z.to_nat max_tokens) (split text) k))
            (seq 0 (count (split text) max_tokens))).
Proof.
  intros Hpos. unfold chunk_text.
  rewrite range_positive by assumption.
  f_equal. rewrite map_map. apply map_ext.
  intros k. now rewrite slice_window.
Qed.

Lemma concat_windows (n : nat) (words : list str) (c : nat) :
  List.concat (map (window n words) (seq 0 c)) = firstn (c * n) words.
Proof.
  induction c as [|c IH]; [reflexivity|].
  rewrite seq_S, map_app, concat_app, IH. simpl.
  rewrite app_nil_r. unfold window.
  rewrite <- firstn_add. f_equal. lia.
Qed.

Lemma length_window (n : nat) (words : list str) (k : nat) :
  List.length (window n words k) = Nat.min n (List.length words - k * n).
Proof.
  unfold window. now rewrite length_firstn, length_skipn.
Qed.

Lemma window_words (n : nat) (words : list str) (k : nat) :
  Forall is_word words -> Forall is_word (window n words k).
Proof.
  intros H. unfold window. rewrite Forall_forall in *.
  intros x Hx. apply H.
  rewrite <- (firstn_skipn (k * n) words). apply in_or_app. right.
  rewrite <- (firstn_skipn n (skipn (k * n) words)). apply in_or_app.
  now left.
Qed.

(** All the windows [chunk_text] takes, for a positive [max_tokens]:
    together they are the words, and none is empty. *)
Lemma windows_cover (words : list str) (max_tokens : Z) :
  (0 < max_tokens)%Z ->
  let n := Z.to_nat max_tokens in
  let ws := map (window n words) (seq 0 (count words max_tokens)) in
  List.concat ws = words /\ Forall (fun g => g <> []) ws.
Proof.
  intros Hpos n ws. unfold ws.
  destruct words as [|x words'] eqn:Ew.
  - rewrite count_nil. split; [reflexivity | constructor].
  - rewrite <- Ew.
    destruct (@count_bounds words max_tokens Hpos) as (Hc & Hlo & Hhi);
      [rewrite Ew; discriminate|].
    fold n in Hlo, Hhi. split.
    + rewrite concat_windows. now apply firstn_all2.
    + rewrite Forall_forall. intros g Hg.
      apply in_map_iff in Hg as (k & <- & Hk).
      apply in_seq in Hk.
      intro E. apply (f_equal (@List.length str)) in E.
      rewrite length_window in E. simpl in E.
      assert (k * n <= (count words max_tokens - 1) * n)
        by (apply Nat.mul_le_mono_r; lia).
      assert (0 < n) by (unfold n; lia).
      lia.
Qed.

Lemma count_is_ceil (words : list str) (N : Z) :
  (0 < N)%Z -> Z.of_nat (count words N) = ceil_div (len words) N.
Proof.
  intros Hpos. unfold count, range_length, ceil_div.
  replace (0 <? N)%Z with true by (symmetry; now apply Z.ltb_lt).
  assert (HL : (0 <= len words)%Z) by (unfold len; lia).
  destruct (0 <? len words)%Z eqn:E.
  - apply Z.ltb_lt in E.
    replace (len words + N - 1)%Z with (len words - 0 - 1 + 1 * N)%Z by lia.
    rewrite Z.div_add by lia.
    rewrite Z2Nat.id; [reflexivity|].
    assert (0 <= (len words - 0 - 1) / N)%Z by (apply Z.div_pos; lia). lia.
  - apply Z.ltb_ge in E.
    replace (len words) with 0%Z by lia. simpl.
    rewrite Z.div_small by lia. reflexivity.
Qed.

End Chunker.

(* ================================================================= *)
(** * The contract of the chunker *)

Module ChunkerSpec.

Import JoinSplit Chunker.

Lemma nth_error_map_seq {A} (f : nat -> A) (c k : nat) (x : A) :
  nth_error (map f (seq 0 c)) k = Some x -> k < c /\ x = f k.
Proof.
  rewrite nth_error_map, nth_error_seq.
  destruct (k <? c) eqn:E; simpl; [|discriminate].
  apply Nat.ltb_lt in E. intros [= <-]. now split.
Qed.

(** C1.  For every text [T] and every positive [N], [chunk_text T N]
    returns chunks whose join with single spaces is the join with single
    spaces of the words of [T] (the white-space-normalized text), and the
    words of the chunks, read chunk after chunk, are exactly the words of
    [T] in their order: none is dropped, none is repeated. *)
Theorem chunk_text_preserves_words (T : str) (N : Z) :
  (0 < N)%Z ->
  exists chunks,
    chunk_text T N = Ok chunks
    /\ join (lit " ") chunks = join (lit " ") (split T)
    /\ flat_map split chunks = split T.
Proof.
  intros Hpos.
  destruct (@windows_cover (split T) N Hpos) as [Hcat Hne].
  set (n := Z.to_nat N) in *.
  set (ws := map (window n (split T)) (seq 0 (count (split T) N))) in *.
  exists (map (join (lit " ")) ws). repeat split.
  - rewrite chunk_text_windows by assumption.
    unfold ws. now rewrite map_map.
  - rewrite join_concat by assumption. now rewrite Hcat.
  - rewrite flat_map_concat_map, map_map.
    transitivity (List.concat ws); [|exact Hcat]. f_equal.
    transitivity (map (fun g => g) ws); [|apply map_id]. apply map_ext_in.
    intros g Hg. apply split_join.
    unfold ws in Hg. apply in_map_iff in Hg as (k & <- & _).
    apply window_words, split_words.
Qed.

Lemma chunk_text_preserves_words_witness :
  (0 < 2)%Z /\
  exists chunks,
    chunk_text (lit " to be  or not to be ") 2 = Ok chunks
    /\ join (lit " ") chunks = join (lit " ") (split (lit " to be  or not to be "))
    /\ flat_map split chunks = split (lit " to be  or not to be ").
Proof.
  split; [lia | apply chunk_text_preserves_words; lia].
Defined.

(** C2.  For every text [T] and every positive [N]: [chunk_text T N]
    returns as many chunks as the words of [T] divided by [N], rounded up,
    so at least one when [T] has a word; the [k]-th chunk holds exactly
    the words of [T] at the positions from [k * N] to [k * N + N] (so the
    chunks are contiguous windows in document order that do not overlap);
    every chunk but the last has exactly [N] words; the last chunk, which
    exists when [T] has a word, has between 1 and [N] words; and a text
    that is empty or all white space gives no chunk. *)
Theorem chunk_text_window_sizes (T : str) (N : Z) :
  (0 < N)%Z ->
  exists chunks,
    chunk_text T N = Ok chunks
    /\ (forall k chunk, nth_error chunks k = Some chunk ->
          split chunk = window (Z.to_nat N) (split T) k)
    /\ (forall k chunk, nth_error chunks k = Some chunk ->
          S k < List.length chunks -> Z.of_nat (word_count chunk) = N)
    /\ (forall k chunk, nth_error chunks k = Some chunk ->
          S k = List.length chunks ->
          (1 <= Z.of_nat (word_count chunk) <= N)%Z)
    /\ (forallb isspace T = true -> chunks = [])
    /\ len chunks = ceil_div (len (split T)) N
    /\ (split T <> [] -> chunks <> [])
    /\ (split T <> [] ->
        exists last,
          nth_error chunks (List.length chunks - 1) = Some last
          /\ (1 <= Z.of_nat (word_count last) <= N)%Z).
Proof.
  intros Hpos.
  rewrite chunk_text_windows by assumption.
  set (n := Z.to_nat N).
  set (c := count (split T) N).
  set (f := fun k => join (lit " ") (window n (split T) k)).
  exists (map f (seq 0 c)). split; [reflexivity|].
  assert (Hsplit : forall k chunk,
             nth_error (map f (seq 0 c)) k = Some chunk ->
             k < c /\ split chunk = window n (split T) k).
  { intros k chunk Hk. apply nth_error_map_seq in Hk as [Hlt ->].
    split; [assumption|]. apply split_join, window_words, split_words. }
  assert (Hbounds : 0 < c ->
             0 < c /\ (c - 1) * n < List.length (split T)
             /\ List.length (split T) <= c * n).
  { intros Hc. apply count_bounds; [assumption|].
    intro E. unfold c in Hc. rewrite E, count_nil in Hc. lia. }
  assert (Hwords : split T <> [] -> 0 < c).
  { intros Hne. now destruct (@count_bounds (split T) N Hpos Hne). }
  assert (Hn : 0 < n) by (unfold n; lia).
  assert (Hlen : List.length (map f (seq 0 c)) = c)
    by now rewrite length_map, length_seq.
  assert (Hlast : forall k chunk,
             nth_error (map f (seq 0 c)) k = Some chunk ->
             S k = List.length (map f (seq 0 c)) ->
             (1 <= Z.of_nat (word_count chunk) <= N)%Z).
  { intros k chunk Hk Hend. apply Hsplit in Hk as [Hlt Hk].
    rewrite Hlen in Hend.
    unfold word_count. rewrite Hk, length_window.
    destruct Hbounds as (_ & Hlo & _); [lia|].
    replace (c - 1) with k in Hlo by lia.
    fold n. lia. }
  split; [|split; [|split; [|split; [|split; [|split]]]]].
  - intros k chunk Hk. now apply Hsplit in Hk.
  - intros k chunk Hk Hinner. apply Hsplit in Hk as [Hlt Hk].
    rewrite Hlen in Hinner.
    unfold word_count. rewrite Hk, length_window.
    destruct Hbounds as (_ & Hlo & _); [lia|].
    assert (S k * n <= (c - 1) * n) by (apply Nat.mul_le_mono_r; lia).
    simpl in *. fold n. lia.
  - exact Hlast.
  - intros Hsp. unfold c.
    now rewrite (split_all_space _ Hsp), count_nil.
  - unfold len at 1. rewrite Hlen. now apply count_is_ceil.
  - intros Hne E. apply Hwords in Hne.
    apply (f_equal (@List.length str)) in E. rewrite Hlen in E.
    simpl in E. lia.
  - intros Hne. apply Hwords in Hne.
    assert (Hnth : nth_error (map f (seq 0 c))
                             (List.length (map f (seq 0 c)) - 1)
                   = Some (f (c - 1))).
    { rewrite Hlen, nth_error_map, nth_error_seq.
      replace (c - 1 <? c) with true by (symmetry; apply Nat.ltb_lt; lia).
      reflexivity. }
    exists (f (c - 1)). split; [exact Hnth|].
    apply (Hlast _ _ Hnth). rewrite Hlen. lia.
Qed.

Lemma chunk_text_window_sizes_witness :
  (0 < 2)%Z /\
  exists chunks,
    chunk_text (lit " to be  or not to be ") 2 = Ok chunks
    /\ (forall k chunk, nth_error chunks k = Some chunk ->
          split chunk = window (Z.to_nat 2) (split (lit " to be  or not to be ")) k)
    /\ (forall k chunk, nth_error chunks k = Some chunk ->
          S k < List.length chunks -> Z.of_nat (word_count chunk) = 2%Z)
    /\ (forall k chunk, nth_error chunks k = Some chunk ->
          S k = List.length chunks ->
          (1 <= Z.of_nat (word_count chunk) <= 2)%Z)
    /\ (forallb isspace (lit " to be  or not to be ") = true -> chunks = [])
    /\ len chunks = ceil_div (len (split (lit " to be  or not to be "))) 2
    /\ (split (lit " to be  or not to be ") <> [] -> chunks <> [])
    /\ (split (lit " to be  or not to be ") <> [] ->
        exists last,
          nth_error chunks (List.length chunks - 1) = Some last
          /\ (1 <= Z.of_nat (word_count last) <= 2)%Z).
Proof.
  split; [lia | apply chunk_text_window_sizes; lia].
Defined.

End ChunkerSpec.

(* ================================================================= *)
(** * Running the pipeline *)

Module Pipeline.

Import JoinSplit Chunker.

(** Traces are compared as right-nested appends. *)
Ltac flatten_trace := repeat (simpl; rewrite <- app_assoc); simpl.

Lemma state_eta (st : state) :
  {| summary := summary st; trace := trace st |} = st.
Proof. now destruct st. Qed.

Lemma load_document_run (w : world) (url : str) :
  exists r,
    fetched w url r /\
    forall st,
      load_document w url st
      = ({| summary := summary st;
            trace := trace st ++ Call_load_document url :: logged r |},
         Ok (returned r)).
Proof.
  unfold load_document, clean_html, try_except, bind, lift, emit, ret.
  destruct (requests_get w url) as [r|e] eqn:Hget.
  - destruct (raise_for_status r) as [[]|e] eqn:Hst.
    + destruct (soup_get_text w (text r)) as [visible|e] eqn:Hsoup.
      * destruct (strip visible) as [|c rest] eqn:Hstrip.
        -- exists (Ok no_content). split.
           ++ eapply fetched_empty; eauto.
           ++ intros st; simpl. reflexivity.
        -- exists (Ok (c :: rest)). split.
           ++ rewrite <- Hstrip. eapply fetched_text; eauto.
              rewrite Hstrip. discriminate.
           ++ intros st; simpl. reflexivity.
      * exists (Raise e). split.
        -- eapply fetched_parse_raises; eauto.
        -- intros st; simpl. now rewrite <- app_assoc.
    + exists (Raise e). split.
      * eapply fetched_bad_status; eauto.
      * intros st; simpl. now rewrite <- app_assoc.
  - exists (Raise e). split.
    + now apply fetched_get_raises.
    + intros st; simpl. now rewrite <- app_assoc.
Qed.

Lemma load_document_success (w : world) (url : str) (r : response)
      (visible : str) (st : state) :
  requests_get w url = Ok r ->
  raise_for_status r = Ok tt ->
  soup_get_text w (text r) = Ok visible ->
  load_document w url st
  = ({| summary := summary st;
        trace := trace st ++ [Call_load_document url] |},
     Ok (if is_empty (strip visible) then no_content else strip visible)).
Proof.
  intros Hget Hst Hsoup.
  unfold load_document, clean_html, try_except, bind, lift, emit, ret.
  simpl. rewrite Hget, Hst, Hsoup.
  destruct (strip visible); reflexivity.
Qed.

(** The string returned does not depend on the store. *)
Lemma load_document_returns (w : world) (url doc : str) (st st' : state) :
  snd (load_document w url st) = Ok doc ->
  exists log,
    load_document w url st'
    = ({| summary := summary st';
          trace := trace st' ++ Call_load_document url :: log |}, Ok doc)
    /\ forallb is_log log = true.
Proof.
  destruct (load_document_run w url) as (r & _ & Hrun).
  rewrite (Hrun st); simpl. intros [= <-].
  exists (logged r). split; [apply Hrun|].
  now destruct r.
Qed.

Lemma summarize_loop_run (w : world) (chunks : list str) :
  forall k summaries st,
    summarize_loop w k chunks summaries st
    = ({| summary := summary st;
          trace := trace st ++ loop_events w k chunks |},
       Ok (summaries ++ summaries_from w k chunks)).
Proof.
  induction chunks as [|chunk rest IH]; intros k summaries st; simpl.
  - unfold ret. now rewrite !app_nil_r, state_eta.
  - unfold bind, summarize_chunk, try_except, bind, lift, emit, ret,
      chunk_summary.
    simpl. destruct (chain_invoke w k chunk) as [m|e]; simpl;
      rewrite IH; simpl; rewrite <- ?app_assoc; reflexivity.
Qed.

Lemma chunk_text_default (doc : str) :
  exists chunks, chunk_text doc default_max_tokens = Ok chunks.
Proof.
  eexists. apply chunk_text_windows. reflexivity.
Qed.

Lemma summarize_document_run (w : world) (doc : str) (chunks : list str)
      (st : state) :
  build_chain w = Ok tt ->
  chunk_text doc default_max_tokens = Ok chunks ->
  summarize_document w doc st
  = ({| summary := Some (aggregate (summaries_from w 0 chunks));
        trace := trace st ++ summarizing_events w doc chunks |}, Ok tt).
Proof.
  intros Hchain Hchunks.
  unfold summarize_document, setup_summarization_chain, summarizing_events,
    bind, lift, emit, set_summary.
  rewrite Hchain, Hchunks, summarize_loop_run. simpl.
  rewrite <- ?app_assoc. reflexivity.
Qed.

(** When line 107 raises, the stage ends there: nothing is chunked, no
    backend call is made and the summary key is not written. *)
Lemma summarize_document_no_chain (w : world) (doc : str) (st : state)
      (e : exn) :
  build_chain w = Raise e ->
  summarize_document w doc st
  = ({| summary := summary st;
        trace := trace st ++ [ St_spinner (lit "Summarizing...");
                               Call_setup_summarization_chain ] |},
     Raise e).
Proof.
  intros Hchain.
  unfold summarize_document, setup_summarization_chain, bind, lift, emit.
  rewrite Hchain. simpl. rewrite <- ?app_assoc. reflexivity.
Qed.

Lemma render_summary_run (w : world) (st : state) (v : str) :
  summary st = Some v ->
  exists evs r,
    render_summary w st
    = ({| summary := Some v; trace := trace st ++ evs |}, r)
    /\ forallb is_render_event evs = true.
Proof.
  intros Hv.
  unfold render_summary, generate_pdf, get_summary, bind, lift, emit, ret.
  rewrite Hv. destruct v as [|c v]; simpl.
  - exists [], (Ok tt). rewrite app_nil_r, <- Hv, state_eta. now split.
  - rewrite Hv. destruct (pdf_output w (c :: v)) as [path|e]; simpl.
    + eexists [_; _; _; _], (Ok tt). rewrite <- ?app_assoc. simpl.
      split; reflexivity.
    + eexists [_; _; _], (Raise e). rewrite <- ?app_assoc. simpl.
      split; reflexivity.
Qed.

Lemma streamlit_mode_prologue (w : world) (url : str) (clicked : bool)
      (slot : option str) :
  streamlit_mode w url clicked (start slot)
  = (if clicked
     then
       if is_empty url
       then
         emit (St_warning (lit "Please enter a valid URL.")) ;;;
         render_summary w
       else
         emit (St_spinner (lit "Fetching document...")) ;;;
         document_text <- load_document w url ;;
         if startswith document_text (lit "Error")
         then emit (St_error document_text)
         else
           summarize_document w document_text ;;;
           render_summary w
     else render_summary w) (after_prologue slot).
Proof.
  unfold streamlit_mode, after_prologue, start, bind, emit, set_summary.
  destruct slot; reflexivity.
Qed.

(** A run that stops at line 104. *)
Lemma run_fetch_failed (w : world) (url doc : str) (slot : option str) :
  is_empty url = false ->
  snd (load_document w url (start slot)) = Ok doc ->
  startswith doc (lit "Error") = true ->
  exists log,
    streamlit_mode w url true (start slot)
    = ({| summary := initialised slot;
          trace := prologue ++ fetching ++ Call_load_document url :: log
                   ++ [St_error doc] |}, Ok tt)
    /\ forallb is_log log = true.
Proof.
  intros Hurl Hload Herr.
  rewrite streamlit_mode_prologue, Hurl.
  unfold bind at 1. unfold emit at 1. unfold bind at 1.
  edestruct (@load_document_returns w url doc (start slot)) as (log & -> & Hlog);
    [eassumption|].
  rewrite Herr. exists log. split; [|assumption].
  unfold emit; simpl. rewrite <- ?app_assoc. reflexivity.
Qed.

(** A run that goes through lines 106 to 120. *)
Lemma run_summarized (w : world) (url doc : str) (slot : option str)
      (chunks : list str) :
  is_empty url = false ->
  snd (load_document w url (start slot)) = Ok doc ->
  startswith doc (lit "Error") = false ->
  build_chain w = Ok tt ->
  chunk_text doc default_max_tokens = Ok chunks ->
  exists log evs r,
    streamlit_mode w url true (start slot)
    = ({| summary := Some (aggregate (summaries_from w 0 chunks));
          trace := prologue ++ fetching ++ Call_load_document url :: log
                   ++ summarizing_events w doc chunks ++ evs |}, r)
    /\ forallb is_log log = true
    /\ forallb is_render_event evs = true.
Proof.
  intros Hurl Hload Herr Hchain Hchunks.
  rewrite streamlit_mode_prologue, Hurl.
  unfold bind at 1. unfold emit at 1. unfold bind at 1.
  edestruct (@load_document_returns w url doc (start slot)) as (log & -> & Hlog);
    [eassumption|].
  rewrite Herr. unfold bind.
  rewrite (summarize_document_run w _ Hchain Hchunks).
  edestruct render_summary_run as (evs & r & -> & Hevs); [reflexivity|].
  exists log, evs, r. split; [|now split].
  unfold summarizing_events. flatten_trace. reflexivity.
Qed.

(** A run that line 107 ends: the exception of the chain setup leaves
    [streamlit_mode], with the summary key as lines 90 and 91 left it. *)
Lemma run_no_chain (w : world) (url doc : str) (slot : option str)
      (e : exn) :
  is_empty url = false ->
  snd (load_document w url (start slot)) = Ok doc ->
  startswith doc (lit "Error") = false ->
  build_chain w = Raise e ->
  exists log,
    streamlit_mode w url true (start slot)
    = ({| summary := initialised slot;
          trace := prologue ++ fetching ++ Call_load_document url :: log
                   ++ [ St_spinner (lit "Summarizing...");
                        Call_setup_summarization_chain ] |}, Raise e)
    /\ forallb is_log log = true.
Proof.
  intros Hurl Hload Herr Hchain.
  rewrite streamlit_mode_prologue, Hurl.
  unfold bind at 1. unfold emit at 1. unfold bind at 1.
  edestruct (@load_document_returns w url doc (start slot)) as (log & -> & Hlog);
    [eassumption|].
  rewrite Herr. unfold bind.
  rewrite (summarize_document_no_chain w _ _ Hchain).
  exists log. split; [|assumption].
  flatten_trace. reflexivity.
Qed.

(** A run with the button not pressed, or with an empty URL. *)
Lemma run_idle (w : world) (url : str) (clicked : bool) (slot : option str) :
  clicked = false \/ is_empty url = true ->
  exists evs r,
    streamlit_mode w url clicked (start slot)
    = ({| summary := initialised slot;
          trace := prologue
                   ++ (if clicked
                       then [St_warning (lit "Please enter a valid URL.")]
                       else [])
                   ++ evs |}, r)
    /\ forallb is_render_event evs = true.
Proof.
  intros Hidle. rewrite streamlit_mode_prologue.
  assert (Hinit : exists v, initialised slot = Some v)
    by (destruct slot; simpl; eauto).
  destruct Hinit as [v Hv].
  destruct clicked.
  - destruct Hidle as [Hc | Hu]; [discriminate | rewrite Hu].
    unfold bind, emit.
    edestruct render_summary_run as (evs & r & -> & Hevs);
      [simpl; exact Hv|].
    exists evs, r. split; [|assumption].
    simpl. rewrite Hv. flatten_trace. reflexivity.
  - edestruct render_summary_run as (evs & r & -> & Hevs);
      [simpl; exact Hv|].
    exists evs, r. split; [|assumption].
    simpl. rewrite Hv. reflexivity.
Qed.

End Pipeline.

(* ================================================================= *)
(** * Facts about traces and the loop's summaries *)

Module Traces.

Lemma forallb_impl {A} (p q : A -> bool) (l : list A) :
  (forall x, p x = true -> q x = true) ->
  forallb p l = true -> forallb q l = true.
Proof.
  intros Hpq. rewrite !forallb_forall. auto.
Qed.

Lemma log_no_call (log : list event) :
  forallb is_log log = true ->
  forallb (fun ev => negb (pipeline_call ev)) log = true.
Proof.
  apply forallb_impl. now intros [].
Qed.

Lemma log_no_summarization (log : list event) :
  forallb is_log log = true ->
  forallb (fun ev => negb (enters_summarization ev)) log = true.
Proof.
  apply forallb_impl. now intros [].
Qed.

Lemma render_no_call (evs : list event) :
  forallb is_render_event evs = true ->
  forallb (fun ev => negb (pipeline_call ev)) evs = true.
Proof.
  apply forallb_impl. now intros [].
Qed.

Lemma render_no_spinner (evs : list event) :
  forallb is_render_event evs = true ->
  forallb (fun ev => negb (is_spinner ev)) evs = true.
Proof.
  apply forallb_impl. now intros [].
Qed.

Lemma render_no_success (evs : list event) :
  forallb is_render_event evs = true ->
  existsb is_success evs = false.
Proof.
  induction evs as [|ev evs IH]; [reflexivity|].
  simpl. intros H. apply andb_true_iff in H as [Hev Hevs].
  rewrite IH by assumption. now destruct ev.
Qed.

Lemma length_summaries_from (w : world) (chunks : list str) (k : nat) :
  List.length (summaries_from w k chunks) = List.length chunks.
Proof.
  revert k; induction chunks as [|c r IH]; intros k; simpl; auto.
Qed.

Lemma nth_error_summaries_from (w : world) (chunks : list str) :
  forall k j,
    nth_error (summaries_from w k chunks) j
    = option_map (chunk_summary w (k + j)) (nth_error chunks j).
Proof.
  induction chunks as [|c r IH]; intros k j.
  - now destruct j.
  - destruct j as [|j]; simpl.
    + now rewrite Nat.add_0_r.
    + rewrite IH. now rewrite Nat.add_succ_r.
Qed.

Lemma loop_events_invoke (w : world) (chunks : list str) (c : str) :
  forall k, In c chunks -> In (Call_invoke c) (loop_events w k chunks).
Proof.
  induction chunks as [|c' r IH]; intros k; simpl; [tauto|].
  intros [-> | Hin]; [now left|].
  right. apply in_or_app. right. now apply IH.
Qed.

Lemma aggregate_cons (s : str) (rest : list str) :
  aggregate (s :: rest)
  = s ++ List.concat (map (fun t => blank_line ++ t) rest).
Proof. apply JoinSplit.join_cons. Qed.

Lemma aggregate_separated (summaries : list str) :
  aggregate summaries = blank_line_separated summaries.
Proof.
  induction summaries as [|x rest IH]; [reflexivity|].
  destruct rest as [|y rest].
  - rewrite aggregate_cons. simpl. apply app_nil_r.
  - unfold aggregate in *. rewrite JoinSplit.join_cons_cons, IH.
    reflexivity.
Qed.

End Traces.

(* ================================================================= *)
(** * The contract of the summarizing stage *)

Module SummarizerSpec.

Import Pipeline Traces.

(** C5.  For every list of per-chunk entries, successes and placeholders
    alike, the aggregate of line 119 is the first entry followed by every
    further entry, each after one blank-line separator, in the order of
    the list; for three entries it is
    [s1 + blank line + s2 + blank line + s3]. *)
Theorem aggregate_is_blank_line_separated :
  (forall summaries : list str,
      aggregate summaries = blank_line_separated summaries)
  /\ (forall s1 s2 s3 : str,
         aggregate [s1; s2; s3]
         = s1 ++ blank_line ++ s2 ++ blank_line ++ s3).
Proof.
  assert (H : forall summaries : list str,
             aggregate summaries = blank_line_separated summaries).
  { induction summaries as [|s rest IH]; [reflexivity|].
    destruct rest as [|s' rest].
    - rewrite aggregate_cons. simpl. apply app_nil_r.
    - unfold aggregate in *. rewrite JoinSplit.join_cons_cons, IH.
      reflexivity. }
  split; [exact H|].
  intros s1 s2 s3. rewrite H. reflexivity.
Qed.

End SummarizerSpec.

(* ================================================================= *)
(** * The contract of the loader and of the front end *)

Module FrontEndSpec.

Import Pipeline Traces.

(** C9.  For every URL, in every store, [load_document] returns a string
    and never raises: the stripped visible text when the request, the
    status check and the extraction all succeed and leave some text; the
    no-content sentinel when they succeed and leave none; and otherwise
    "Error loading document: " followed by the text of the exception that
    the request, the status check or the extraction raised.  It leaves the
    summary key alone and adds only its log record to the trace. *)
Theorem load_document_total (w : world) (url : str) (st : state) :
  exists doc log,
    load_document w url st
    = ({| summary := summary st;
          trace := trace st ++ Call_load_document url :: log |}, Ok doc)
    /\ forallb is_log log = true
    /\ ((exists r visible,
            requests_get w url = Ok r /\ raise_for_status r = Ok tt
            /\ soup_get_text w (text r) = Ok visible
            /\ strip visible <> [] /\ doc = strip visible)
        \/ (exists r visible,
               requests_get w url = Ok r /\ raise_for_status r = Ok tt
               /\ soup_get_text w (text r) = Ok visible
               /\ strip visible = [] /\ doc = no_content)
        \/ (exists e,
               (requests_get w url = Raise e
                \/ exists r,
                    requests_get w url = Ok r
                    /\ (raise_for_status r = Raise e
                        \/ (raise_for_status r = Ok tt
                            /\ soup_get_text w (text r) = Raise e)))
               /\ doc = lit "Error loading document: " ++ exn_str e)).
Proof.
  destruct (load_document_run w url) as (r & Hfetched & Hrun).
  exists (returned r), (logged r). split; [apply Hrun|].
  split; [now destruct r|].
  destruct Hfetched as [e Hget | r e Hget Hst | r e Hget Hst Hsoup
                        | r visible Hget Hst Hsoup Hstrip
                        | r visible Hget Hst Hsoup Hstrip]; simpl.
  - right; right. exists e. split; [now left | reflexivity].
  - right; right. exists e. split; [right; exists r; auto | reflexivity].
  - right; right. exists e. split; [right; exists r; auto | reflexivity].
  - right; left. exists r, visible. auto.
  - left. exists r, visible. auto.
Qed.

(** C4, as the code has it.  When the HTTP GET raises (a transport error
    or a timeout) or returns a status from 400 to 599, [load_document]
    returns "Error loading document: " followed by the exception's text, a
    string that starts with "Error", and the front end shows that string
    with [st.error] and returns: the run enters neither the chunker nor
    the summarizer, and the summary key is what lines 90 and 91 left. *)
Theorem fetch_failure_halts (w : world) (url : str) (slot : option str) :
  is_empty url = false ->
  ((exists e, requests_get w url = Raise e)
   \/ (exists r, requests_get w url = Ok r
                 /\ (400 <= status_code r < 600)%Z)) ->
  exists e log,
    let doc := lit "Error loading document: " ++ exn_str e in
    snd (load_document w url (start slot)) = Ok doc
    /\ startswith doc (lit "Error") = true
    /\ streamlit_mode w url true (start slot)
       = ({| summary := initialised slot;
             trace := prologue ++ fetching ++ Call_load_document url :: log
                      ++ [St_error doc] |}, Ok tt)
    /\ forallb (fun ev => negb (enters_summarization ev))
               (prologue ++ fetching ++ Call_load_document url :: log
                ++ [St_error doc]) = true.
Proof.
  intros Hurl Hfail.
  destruct (load_document_run w url) as (r & Hfetched & Hrun).
  assert (He : exists e, r = Raise e).
  { destruct Hfetched as [e Hget | r e Hget Hst | r e Hget Hst Hsoup
                          | r visible Hget Hst Hsoup Hstrip
                          | r visible Hget Hst Hsoup Hstrip]; eauto;
      destruct Hfail as [[e' Hr] | (r' & Hr & Hcode)]; try congruence;
      rewrite Hget in Hr; injection Hr as <-;
      unfold raise_for_status in Hst;
      replace (400 <=? status_code r)%Z with true in Hst
        by (symmetry; apply Z.leb_le; lia);
      replace (status_code r <? 600)%Z with true in Hst
        by (symmetry; apply Z.ltb_lt; lia);
      discriminate. }
  destruct He as [e ->].
  assert (Hload : snd (load_document w url (start slot))
                  = Ok (lit "Error loading document: " ++ exn_str e))
    by (now rewrite Hrun).
  destruct (run_fetch_failed w url slot Hurl Hload eq_refl)
    as (log & Hmode & Hlog).
  exists e, log. cbv zeta. repeat split; try assumption.
  rewrite !forallb_app. simpl. rewrite forallb_app.
  rewrite (log_no_summarization _ Hlog). reflexivity.
Qed.

Lemma fetch_failure_halts_witness :
  is_empty sample_url = false
  /\ exists e log,
    let doc := lit "Error loading document: " ++ exn_str e in
    snd (load_document world_refused sample_url (start None)) = Ok doc
    /\ startswith doc (lit "Error") = true
    /\ streamlit_mode world_refused sample_url true (start None)
       = ({| summary := initialised None;
             trace := prologue ++ fetching
                      ++ Call_load_document sample_url :: log
                      ++ [St_error doc] |}, Ok tt)
    /\ forallb (fun ev => negb (enters_summarization ev))
               (prologue ++ fetching ++ Call_load_document sample_url :: log
                ++ [St_error doc]) = true.
Proof.
  split; [reflexivity|].
  apply (@fetch_failure_halts world_refused sample_url None).
  - reflexivity.
  - left. eexists. reflexivity.
Defined.

(** C4 as stated fails: a response with status 304 is not a 2xx response,
    yet [raise_for_status] lets it through, [load_document] returns the
    page text, which does not start with "Error", and the run goes on into
    the chunker and the summarizer. *)
Lemma non_2xx_status_can_pass :
  (exists r, requests_get world_not_modified sample_url = Ok r
             /\ ~ (200 <= status_code r < 300)%Z)
  /\ snd (load_document world_not_modified sample_url (start None))
     = Ok (lit "hello world")
  /\ startswith (lit "hello world") (lit "Error") = false
  /\ existsb enters_summarization
       (trace (fst (streamlit_mode world_not_modified sample_url true
                                   (start None)))) = true.
Proof.
  split.
  - eexists. split; [reflexivity|]. simpl. lia.
  - repeat split; vm_compute; reflexivity.
Qed.

(** C10.  Success and failure of the fetch are told apart by the prefix
    alone: whenever the request, the status check and the extraction all
    succeed and the stripped visible text itself starts with "Error",
    [load_document] returns that text, and the front end shows it with
    [st.error] and returns without entering the chunker or the
    summarizer, the summary key being what lines 90 and 91 left. *)
Theorem error_prefixed_page_is_rejected
        (w : world) (url : str) (slot : option str)
        (r : response) (visible : str) :
  is_empty url = false ->
  requests_get w url = Ok r ->
  raise_for_status r = Ok tt ->
  soup_get_text w (text r) = Ok visible ->
  startswith (strip visible) (lit "Error") = true ->
  snd (load_document w url (start slot)) = Ok (strip visible)
  /\ streamlit_mode w url true (start slot)
     = ({| summary := initialised slot;
           trace := prologue ++ fetching
                    ++ [Call_load_document url; St_error (strip visible)] |},
        Ok tt)
  /\ forallb (fun ev => negb (enters_summarization ev))
             (trace (fst (streamlit_mode w url true (start slot)))) = true.
Proof.
  intros Hurl Hget Hst Hsoup Herr.
  assert (Hload : forall st,
             load_document w url st
             = ({| summary := summary st;
                   trace := trace st ++ [Call_load_document url] |},
                Ok (strip visible))).
  { intros st. rewrite (load_document_success w url st Hget Hst Hsoup).
    destruct (strip visible); [discriminate | reflexivity]. }
  assert (Hmode : streamlit_mode w url true (start slot)
                  = ({| summary := initialised slot;
                        trace := prologue ++ fetching
                                 ++ [Call_load_document url;
                                     St_error (strip visible)] |}, Ok tt)).
  { rewrite streamlit_mode_prologue, Hurl.
    unfold bind at 1. unfold emit at 1. unfold bind at 1.
    rewrite Hload, Herr. unfold emit. flatten_trace. reflexivity. }
  split; [now rewrite Hload|].
  split; [exact Hmode|].
  rewrite Hmode. reflexivity.
Qed.

Lemma error_prefixed_page_is_rejected_witness :
  is_empty sample_url = false
  /\ snd (load_document world_error_article sample_url (start None))
     = Ok (lit "Error handling in Python")
  /\ streamlit_mode world_error_article sample_url true (start None)
     = ({| summary := initialised None;
           trace := prologue ++ fetching
                    ++ [Call_load_document sample_url;
                        St_error (lit "Error handling in Python")] |},
        Ok tt)
  /\ forallb (fun ev => negb (enters_summarization ev))
             (trace (fst (streamlit_mode world_error_article sample_url true
                                         (start None)))) = true.
Proof.
  split; [reflexivity|].
  apply (@error_prefixed_page_is_rejected
           world_error_article sample_url None
           {| status_code := 200;
              text := lit "<h1>Error handling in Python</h1>";
              http_error_msg := [] |}
           (lit "Error handling in Python"));
    reflexivity.
Defined.

(** C8.  A submission with an empty URL never enters the fetching state:
    the run shows the warning, starts no spinner, calls neither the
    loader nor the chunker nor the summarizer, and leaves the summary key
    as lines 90 and 91 left it. *)
Theorem empty_url_short_circuits (w : world) (slot : option str) :
  let final := fst (streamlit_mode w [] true (start slot)) in
  In (St_warning (lit "Please enter a valid URL.")) (trace final)
  /\ forallb (fun ev => negb (pipeline_call ev)) (trace final) = true
  /\ forallb (fun ev => negb (is_spinner ev)) (trace final) = true
  /\ summary final = initialised slot.
Proof.
  intros final.
  destruct (@run_idle w [] true slot) as (evs & r & Hrun & Hevs);
    [now right|].
  unfold final. rewrite Hrun. cbn [fst summary trace].
  repeat split.
  - apply in_or_app; right. now left.
  - rewrite !forallb_app, (render_no_call _ Hevs). reflexivity.
  - rewrite !forallb_app, (render_no_spinner _ Hevs). reflexivity.
Qed.

(** C7.  A run that fails at the fetch stage ([load_document] returns a
    string that starts with "Error") ends with the summary key as lines 90
    and 91 left it: the value it had before the run, or the empty string
    if the key was absent.  And whatever the URL and the button, a run
    that ends with another value in the key went through the summarizing
    stage to its success notice. *)
Theorem fetch_failure_keeps_summary
        (w : world) (url doc : str) (slot : option str) :
  is_empty url = false ->
  snd (load_document w url (start slot)) = Ok doc ->
  startswith doc (lit "Error") = true ->
  summary (fst (streamlit_mode w url true (start slot))) = initialised slot
  /\ (forall v, slot = Some v ->
        summary (fst (streamlit_mode w url true (start slot))) = Some v)
  /\ (forall url' clicked',
        summary (fst (streamlit_mode w url' clicked' (start slot)))
        <> initialised slot ->
        existsb is_success
                (trace (fst (streamlit_mode w url' clicked' (start slot))))
        = true).
Proof.
  intros Hurl Hload Herr.
  destruct (run_fetch_failed w url slot Hurl Hload Herr) as (log & Hrun & _).
  rewrite Hrun. cbn [fst summary].
  split; [reflexivity|].
  split; [now intros v -> |].
  intros url' clicked' Hchanged.
  destruct clicked'.
  - destruct (is_empty url') eqn:Hurl'.
    + destruct (@run_idle w url' true slot) as (evs & r & Hidle & _);
        [now right|].
      rewrite Hidle in Hchanged. now contradiction Hchanged.
    + destruct (load_document_run w url') as (res & _ & Hres).
      assert (Hdoc : snd (load_document w url' (start slot))
                     = Ok (returned res)) by (now rewrite Hres).
      destruct (startswith (returned res) (lit "Error")) eqn:Hprefix.
      * destruct (run_fetch_failed w url' slot Hurl' Hdoc Hprefix)
          as (log' & Hfailed & _).
        rewrite Hfailed in Hchanged. now contradiction Hchanged.
      * destruct (build_chain w) as [[]|e] eqn:Hchain;
          [|destruct (run_no_chain w url' slot Hurl' Hdoc Hprefix Hchain)
              as (log' & Hraised & _);
            rewrite Hraised in Hchanged; now contradiction Hchanged].
        destruct (chunk_text_default (returned res)) as [chunks Hchunks].
        destruct (run_summarized w url' slot Hurl' Hdoc Hprefix Hchain Hchunks)
          as (log' & evs & r & Hsum & _ & _).
        rewrite Hsum. cbn [fst trace].
        apply existsb_exists.
        exists (St_success
                  (9989%N :: lit " Summary generated successfully!")).
        split; [|reflexivity].
        apply in_or_app; right. apply in_or_app; right. apply in_cons.
        apply in_or_app; right. apply in_or_app; left.
        unfold summarizing_events.
        apply in_or_app; right. apply in_or_app; right. now left.
  - destruct (@run_idle w url' false slot) as (evs & r & Hidle & _);
      [now left|].
    rewrite Hidle in Hchanged. now contradiction Hchanged.
Qed.

Lemma fetch_failure_keeps_summary_witness :
  let final :=
    fst (streamlit_mode world_refused sample_url true
                        (start (Some (lit "an earlier summary")))) in
  summary final = Some (lit "an earlier summary")
  /\ trace final
     = prologue ++ fetching
       ++ [ Call_load_document sample_url;
            Logging_error (lit "Failed to load document: Connection refused");
            St_error (lit "Error loading document: Connection refused") ].
Proof.
  intros final. split.
  - apply (@fetch_failure_keeps_summary
             world_refused sample_url
             (lit "Error loading document: Connection refused")
             (Some (lit "an earlier summary")));
      reflexivity.
  - reflexivity.
Defined.

(** C6, on the code.  When the fetch succeeds and the extraction leaves
    no text, [load_document] returns the no-content sentinel; the sentinel
    does not start with "Error", so the front end goes on: the sentinel is
    handed to the chunker, its single chunk is sent to the backend, and
    the summary key receives what the backend made of it (line 107 having
    returned the chain). *)
Theorem no_content_sentinel_is_summarized
        (w : world) (url : str) (slot : option str)
        (r : response) (visible : str) :
  is_empty url = false ->
  requests_get w url = Ok r ->
  raise_for_status r = Ok tt ->
  soup_get_text w (text r) = Ok visible ->
  strip visible = [] ->
  build_chain w = Ok tt ->
  let final := fst (streamlit_mode w url true (start slot)) in
  snd (load_document w url (start slot)) = Ok no_content
  /\ In (Call_chunk_text no_content) (trace final)
  /\ In (Call_invoke no_content) (trace final)
  /\ summary final = Some (chunk_summary w 0 no_content).
Proof.
  intros Hurl Hget Hst Hsoup Hstrip Hchain final.
  assert (Hload : snd (load_document w url (start slot)) = Ok no_content).
  { rewrite (load_document_success w url (start slot) Hget Hst Hsoup).
    now rewrite Hstrip. }
  assert (Hchunks : chunk_text no_content default_max_tokens
                    = Ok [no_content]) by (vm_compute; reflexivity).
  destruct (run_summarized w url slot Hurl Hload eq_refl Hchain Hchunks)
    as (log & evs & res & Hrun & _ & _).
  unfold final. rewrite Hrun. cbn [fst summary trace].
  split; [exact Hload|]. split; [|split].
  - apply in_or_app; right. apply in_or_app; right. apply in_cons.
    apply in_or_app; right. apply in_or_app; left.
    unfold summarizing_events. apply in_or_app; left.
    right; right; now left.
  - apply in_or_app; right. apply in_or_app; right. apply in_cons.
    apply in_or_app; right. apply in_or_app; left.
    unfold summarizing_events. apply in_or_app; right.
    apply in_or_app; left. now left.
  - simpl. now rewrite aggregate_cons, app_nil_r.
Qed.

Lemma no_content_sentinel_is_summarized_witness :
  let final :=
    fst (streamlit_mode world_empty_page sample_url true (start None)) in
  snd (load_document world_empty_page sample_url (start None)) = Ok no_content
  /\ In (Call_chunk_text no_content) (trace final)
  /\ In (Call_invoke no_content) (trace final)
  /\ summary final = Some (lit "A summary.").
Proof.
  apply (@no_content_sentinel_is_summarized
           world_empty_page sample_url None
           {| status_code := 200;
              text := lit "<html><body></body></html>";
              http_error_msg := [] |}
           (lit " "));
    reflexivity.
Defined.

End FrontEndSpec.

(* ================================================================= *)
(** * More on stripping and splitting *)

Module StripFacts.

Import JoinSplit.

Lemma lstrip_spaces (s : str) :
  forallb isspace s = true -> lstrip s = [].
Proof.
  induction s as [|c s IH]; [reflexivity|].
  simpl. intros H. apply andb_true_iff in H as [Hc Hs].
  rewrite Hc. now apply IH.
Qed.

Lemma lstrip_nil_spaces (s : str) :
  lstrip s = [] -> forallb isspace s = true.
Proof.
  induction s as [|c s IH]; [reflexivity|].
  simpl. destruct (isspace c); [exact IH | discriminate].
Qed.

(** What [lstrip] removes is white space, and what it leaves does not
    start with white space. *)
Lemma lstrip_decompose (s : str) :
  exists t, forallb isspace t = true /\ s = t ++ lstrip s.
Proof.
  induction s as [|c s (t & Ht & IH)].
  - now exists [].
  - simpl. destruct (isspace c) eqn:Hc.
    + exists (c :: t). simpl. rewrite Hc, Ht. split; [reflexivity|].
      now rewrite <- IH.
    + now exists [].
Qed.

Lemma lstrip_head (s : str) (c : char) (rest : str) :
  lstrip s = c :: rest -> isspace c = false.
Proof.
  induction s as [|d s IH]; [discriminate|].
  simpl. destruct (isspace d) eqn:Hd; [exact IH|].
  now intros [= <- _].
Qed.

Lemma lstrip_fixed (c : char) (rest : str) :
  isspace c = false -> lstrip (c :: rest) = c :: rest.
Proof. intros H. simpl. now rewrite H. Qed.

Lemma forallb_rev {A} (p : A -> bool) (l : list A) :
  forallb p (rev l) = forallb p l.
Proof.
  induction l as [|x l IH]; [reflexivity|].
  simpl. rewrite forallb_app, IH. simpl.
  now rewrite andb_true_r, andb_comm.
Qed.

(** [strip] cuts white space off both ends, and nothing else. *)
Lemma strip_decompose (s : str) :
  exists a b,
    forallb isspace a = true /\ forallb isspace b = true
    /\ s = a ++ strip s ++ b.
Proof.
  destruct (lstrip_decompose s) as (a & Ha & Hs).
  destruct (lstrip_decompose (rev (lstrip s))) as (b & Hb & Hr).
  exists a, (rev b). split; [assumption|]. split.
  - now rewrite forallb_rev.
  - unfold strip. rewrite <- rev_app_distr, <- Hr, rev_involutive.
    exact Hs.
Qed.

Lemma strip_nil_iff (s : str) :
  strip s = [] <-> forallb isspace s = true.
Proof.
  split.
  - intros H. destruct (strip_decompose s) as (a & b & Ha & Hb & Hs).
    rewrite Hs, H. simpl. now rewrite forallb_app, Ha, Hb.
  - intros H. unfold strip. now rewrite (lstrip_spaces _ H).
Qed.

(** A stripped string that is not empty starts and ends with a character
    that is not white space. *)
Lemma strip_ends (s : str) :
  strip s <> [] ->
  exists c d mid,
    isspace c = false /\ isspace d = false
    /\ (strip s = [c] /\ c = d \/ strip s = c :: mid ++ [d]).
Proof.
  unfold strip. intros Hne.
  destruct (lstrip (rev (lstrip s))) as [|d u] eqn:Hu; [now contradiction Hne|].
  pose proof (lstrip_head _ Hu) as Hd.
  destruct (rev u) as [|c mid] eqn:Hru.
  - exists d, d, []. simpl. rewrite Hru. simpl. auto.
  - assert (Hc : isspace c = false).
    { destruct (lstrip_decompose (rev (lstrip s))) as (t & Ht & Hdec).
      rewrite Hu in Hdec.
      apply (f_equal (@rev char)) in Hdec.
      rewrite rev_involutive, rev_app_distr in Hdec. simpl in Hdec.
      rewrite Hru in Hdec. simpl in Hdec.
      destruct (lstrip s) as [|c' ls] eqn:Hls; [discriminate|].
      injection Hdec as Hc' _. subst c'.
      exact (lstrip_head _ Hls). }
    exists c, d, mid. simpl. rewrite Hru. simpl. auto.
Qed.

Lemma split_from_spaces (t : str) (cur : str) :
  forallb isspace t = true ->
  split_from cur t = split_from cur [].
Proof.
  revert cur; induction t as [|c t IH]; intros cur H; [reflexivity|].
  simpl in H. apply andb_true_iff in H as [Hc Ht].
  simpl. rewrite Hc. destruct cur as [|d cur].
  - now rewrite IH.
  - rewrite IH by assumption. reflexivity.
Qed.

Lemma split_from_trailing (s t : str) (cur : str) :
  forallb isspace t = true ->
  split_from cur (s ++ t) = split_from cur s.
Proof.
  intros Ht. revert cur; induction s as [|c s IH]; intros cur.
  - now apply split_from_spaces.
  - simpl. destruct (isspace c); [destruct cur|]; now rewrite ?IH.
Qed.

Lemma split_leading (t s : str) :
  forallb isspace t = true -> split (t ++ s) = split s.
Proof.
  unfold split. induction t as [|c t IH]; [reflexivity|].
  simpl. intros H. apply andb_true_iff in H as [Hc Ht].
  rewrite Hc. now apply IH.
Qed.

(** Stripping loses no word. *)
Lemma split_strip (s : str) : split (strip s) = split s.
Proof.
  destruct (strip_decompose s) as (a & b & Ha & Hb & Hs).
  rewrite Hs at 2.
  rewrite split_leading by assumption.
  unfold split. now rewrite split_from_trailing.
Qed.

Lemma split_nil_iff (s : str) :
  split s = [] <-> forallb isspace s = true.
Proof.
  split; [|apply split_all_space].
  unfold split.
  assert (H : forall cur, split_from cur s = [] ->
                          cur = [] /\ forallb isspace s = true).
  { induction s as [|c s IH]; intros cur; simpl.
    - destruct cur; [auto | discriminate].
    - destruct (isspace c) eqn:Hc.
      + destruct cur; [|discriminate].
        intros H. apply IH in H as [_ H]. auto.
      + intros H. apply IH in H as [H _]. discriminate. }
  intros E. now apply H in E.
Qed.

End StripFacts.

(* ================================================================= *)
(** * More on the chunker *)

Module ChunkerMore.

Import JoinSplit Chunker StripFacts.

Lemma word_head (x : str) :
  is_word x -> exists c rest, x = c :: rest /\ isspace c = false.
Proof.
  intros [Hne Hall]. destruct x as [|c rest]; [congruence|].
  simpl in Hall. apply andb_true_iff in Hall as [Hc _].
  exists c, rest. split; [reflexivity|]. now apply negb_true_iff.
Qed.

Lemma word_last (x : str) :
  is_word x -> exists d rest, rev x = d :: rest /\ isspace d = false.
Proof.
  intros [Hne Hall].
  destruct (rev x) as [|d rest] eqn:E.
  - apply (f_equal (@rev char)) in E. rewrite rev_involutive in E.
    simpl in E. congruence.
  - exists d, rest. split; [reflexivity|].
    rewrite forallb_forall in Hall. apply negb_true_iff, Hall.
    apply in_rev. rewrite E. now left.
Qed.

Lemma join_ends_with_last (sep : str) (init : list str) (x : str) :
  exists pre, join sep (init ++ [x]) = pre ++ x.
Proof.
  destruct init as [|y init].
  - exists []. simpl. rewrite join_cons. simpl. apply app_nil_r.
  - exists (join sep (y :: init) ++ sep).
    rewrite join_app by discriminate.
    rewrite (join_cons sep x []). simpl.
    now rewrite app_nil_r, <- app_assoc.
Qed.

Lemma strip_fixed (s : str) (c d : char) (r1 r2 : str) :
  s = c :: r1 -> isspace c = false ->
  rev s = d :: r2 -> isspace d = false ->
  strip s = s.
Proof.
  intros Hs Hc Hr Hd. unfold strip.
  rewrite Hs at 1. rewrite (@lstrip_fixed c r1 Hc), <- Hs.
  rewrite Hr, (@lstrip_fixed d r2 Hd), <- Hr. apply rev_involutive.
Qed.

(** The space-join of words is not empty and has nothing to strip. *)
Lemma join_words_stripped (ws : list str) :
  ws <> [] -> Forall is_word ws ->
  join (lit " ") ws <> [] /\ strip (join (lit " ") ws) = join (lit " ") ws.
Proof.
  intros Hne Hws.
  assert (Hhead : exists c r1, join (lit " ") ws = c :: r1
                               /\ isspace c = false).
  { destruct ws as [|x r]; [congruence|].
    inversion Hws as [|? ? Hx _]; subst.
    destruct (word_head Hx) as (c & rest & -> & Hc).
    rewrite join_cons. simpl. eauto. }
  assert (Hlast : exists d r2, rev (join (lit " ") ws) = d :: r2
                               /\ isspace d = false).
  { destruct (exists_last Hne) as (init & x & ->).
    apply Forall_app in Hws as [_ Hx]. inversion Hx as [|? ? Hx' _]; subst.
    destruct (join_ends_with_last (lit " ") init x) as [pre ->].
    destruct (word_last Hx') as (d & rest & Hr & Hd).
    rewrite rev_app_distr, Hr. simpl. eauto. }
  destruct Hhead as (c & r1 & Hs & Hc).
  destruct Hlast as (d & r2 & Hr & Hd).
  split; [rewrite Hs; discriminate|].
  eapply strip_fixed; eauto.
Qed.

Lemma count_ceil (words : list str) (N : Z) :
  (0 < N)%Z -> Z.of_nat (count words N) = ceil_div (len words) N.
Proof.
  intros Hpos. unfold count, range_length, ceil_div.
  replace (0 <? N)%Z with true by (symmetry; now apply Z.ltb_lt).
  assert (HL : (0 <= len words)%Z) by (unfold len; lia).
  destruct (0 <? len words)%Z eqn:E.
  - apply Z.ltb_lt in E.
    replace (len words + N - 1)%Z with (len words - 0 - 1 + 1 * N)%Z by lia.
    rewrite Z.div_add by lia.
    rewrite Z2Nat.id; [reflexivity|].
    assert (0 <= (len words - 0 - 1) / N)%Z by (apply Z.div_pos; lia). lia.
  - apply Z.ltb_ge in E.
    replace (len words) with 0%Z by lia. simpl.
    rewrite Z.div_small by lia. reflexivity.
Qed.

Lemma count_small (words : list str) (N : Z) :
  words <> [] -> (len words <= N)%Z -> count words N = 1.
Proof.
  intros Hne Hle.
  assert (HL : (0 < len words)%Z)
    by (unfold len; destruct words; [congruence | simpl; lia]).
  apply Nat2Z.inj. rewrite count_ceil by lia. unfold ceil_div.
  replace (len words + N - 1)%Z with ((len words - 1) + 1 * N)%Z by lia.
  rewrite Z.div_add by lia. rewrite Z.div_small by lia. reflexivity.
Qed.

(** X1.  A [max_tokens] that is not positive never chunks anything: zero
    makes [chunk_text] raise the [ValueError] of [range], whatever the
    text, the empty text included; a negative value raises nothing and
    returns no chunk at all, so every word of the text is dropped. *)
Theorem chunk_text_nonpositive (T : str) (N : Z) :
  (N <= 0)%Z ->
  chunk_text T N
  = if (N =? 0)%Z
    then Raise (Exception (lit "range() arg 3 must not be zero"))
    else Ok [].
Proof.
  intros Hle. unfold chunk_text, range, range_length.
  destruct (N =? 0)%Z eqn:E; [reflexivity|].
  apply Z.eqb_neq in E.
  replace (0 <? N)%Z with false by (symmetry; apply Z.ltb_ge; lia).
  replace (len (split T) <? 0)%Z with false
    by (symmetry; apply Z.ltb_ge; unfold len; lia).
  reflexivity.
Qed.

Lemma chunk_text_nonpositive_witness :
  (-3 <= 0)%Z /\ chunk_text (lit "to be or not to be") (-3) = Ok [].
Proof.
  split; [lia | apply (@chunk_text_nonpositive _ (-3)); lia].
Defined.

(** X2.  For a positive [max_tokens] the number of chunks is the number of
    words divided by [max_tokens], rounded up. *)
Theorem chunk_text_count (T : str) (N : Z) :
  (0 < N)%Z ->
  exists chunks,
    chunk_text T N = Ok chunks
    /\ len chunks = ceil_div (len (split T)) N.
Proof.
  intros Hpos. rewrite chunk_text_windows by assumption.
  eexists; split; [reflexivity|].
  unfold len at 1. rewrite length_map, length_seq.
  now apply count_ceil.
Qed.

Lemma chunk_text_count_witness :
  (0 < 4)%Z /\
  exists chunks,
    chunk_text (lit "to be or not to be") 4 = Ok chunks
    /\ len chunks = ceil_div (len (split (lit "to be or not to be"))) 4.
Proof.
  split; [lia | apply chunk_text_count; lia].
Defined.

(** X3.  For a positive [max_tokens] every chunk is normalized: it is not
    empty, it has no white space to strip at either end, and splitting it
    and joining the words with single spaces gives the chunk back. *)
Theorem chunk_text_chunks_normalized (T : str) (N : Z) (chunks : list str)
        (chunk : str) :
  (0 < N)%Z ->
  chunk_text T N = Ok chunks ->
  In chunk chunks ->
  chunk <> []
  /\ strip chunk = chunk
  /\ join (lit " ") (split chunk) = chunk.
Proof.
  intros Hpos Hchunks Hin.
  rewrite chunk_text_windows in Hchunks by assumption.
  injection Hchunks as <-.
  apply in_map_iff in Hin as (k & <- & Hk).
  destruct (@windows_cover (split T) N Hpos) as [_ Hne].
  rewrite Forall_forall in Hne.
  assert (Hwne : window (Z.to_nat N) (split T) k <> [])
    by (apply Hne, in_map, Hk).
  assert (Hw : Forall is_word (window (Z.to_nat N) (split T) k))
    by apply window_words, split_words.
  destruct (join_words_stripped Hwne Hw) as [H1 H2].
  split; [assumption|]. split; [assumption|].
  now rewrite split_join.
Qed.

Lemma chunk_text_chunks_normalized_witness :
  (0 < 2)%Z /\
  lit "or not" <> []
  /\ strip (lit "or not") = lit "or not"
  /\ join (lit " ") (split (lit "or not")) = lit "or not".
Proof.
  split; [lia|].
  apply (@chunk_text_chunks_normalized
           (lit " to be  or not to be ") 2
           [lit "to be"; lit "or not"; lit "to be"]);
    [lia | reflexivity | right; left; reflexivity].
Defined.

(** X4.  A text that has at least one word and at most [max_tokens] words
    gives exactly one chunk: its words joined with single spaces. *)
Theorem chunk_text_single_chunk (T : str) (N : Z) :
  split T <> [] ->
  (len (split T) <= N)%Z ->
  chunk_text T N = Ok [join (lit " ") (split T)].
Proof.
  intros Hne Hle.
  assert (Hpos : (0 < N)%Z).
  { unfold len in Hle. destruct (split T); [congruence | simpl in Hle; lia]. }
  rewrite chunk_text_windows by assumption.
  rewrite count_small by assumption. simpl.
  unfold window. simpl. rewrite firstn_all2; [reflexivity|].
  unfold len in Hle. lia.
Qed.

Lemma chunk_text_single_chunk_witness :
  split (lit " to be  or not ") <> []
  /\ chunk_text (lit " to be  or not ") 500
     = Ok [join (lit " ") (split (lit " to be  or not "))].
Proof.
  split; [discriminate|].
  apply chunk_text_single_chunk; [discriminate | vm_compute; discriminate].
Defined.

End ChunkerMore.

(* ================================================================= *)
(** * Chunking again: words, chunks of chunks *)

Module ChunkerCompose.

Import JoinSplit Chunker StripFacts ChunkerMore.

(** Every chunk is the space-join of a window of at least one and at most
    [max_tokens] words. *)
Lemma chunk_shape (T : str) (N : Z) (chunks : list str) (chunk : str) :
  (0 < N)%Z ->
  chunk_text T N = Ok chunks ->
  In chunk chunks ->
  exists ws,
    ws <> [] /\ Forall is_word ws /\ (len ws <= N)%Z
    /\ chunk = join (lit " ") ws.
Proof.
  intros Hpos Hchunks Hin.
  rewrite chunk_text_windows in Hchunks by assumption.
  injection Hchunks as <-.
  apply in_map_iff in Hin as (k & <- & Hk).
  destruct (@windows_cover (split T) N Hpos) as [_ Hne].
  rewrite Forall_forall in Hne.
  exists (window (Z.to_nat N) (split T) k). repeat split.
  - apply Hne, in_map, Hk.
  - apply window_words, split_words.
  - unfold len. rewrite length_window. lia.
Qed.

Lemma one_window (ws : list str) (N : Z) :
  ws <> [] -> Forall is_word ws -> (len ws <= N)%Z ->
  chunk_text (join (lit " ") ws) N = Ok [join (lit " ") ws].
Proof.
  intros Hne Hws Hle.
  assert (Hpos : (0 < N)%Z).
  { unfold len in Hle. destruct ws; [congruence | simpl in Hle; lia]. }
  rewrite chunk_text_windows by assumption.
  rewrite split_join by assumption.
  rewrite count_small by assumption. simpl.
  unfold window. simpl. rewrite firstn_all2; [reflexivity|].
  unfold len in Hle. lia.
Qed.

Lemma singleton_windows (sep : str) (ws : list str) :
  map (fun k => join sep (window 1 ws k)) (seq 0 (List.length ws)) = ws.
Proof.
  induction ws as [|x ws IH]; [reflexivity|].
  simpl List.length. rewrite <- cons_seq, <- seq_shift.
  change (map (fun k => join sep (window 1 (x :: ws) k))
              (0 :: map S (seq 0 (List.length ws))))
    with (join sep (window 1 (x :: ws) 0)
          :: map (fun k => join sep (window 1 (x :: ws) k))
                 (map S (seq 0 (List.length ws)))).
  rewrite map_map.
  assert (Hhead : join sep (window 1 (x :: ws) 0) = x).
  { change (window 1 (x :: ws) 0) with [x].
    rewrite join_cons. simpl. apply app_nil_r. }
  rewrite Hhead. f_equal.
  rewrite <- IH at 2. apply map_ext. intros k. reflexivity.
Qed.

(** X5.  With [max_tokens = 1] the chunks are the words of the text. *)
Theorem chunk_text_one_is_split (T : str) :
  chunk_text T 1 = Ok (split T).
Proof.
  rewrite chunk_text_windows by lia.
  replace (count (split T) 1) with (List.length (split T)).
  - change (Z.to_nat 1) with 1. now rewrite singleton_windows.
  - apply Nat2Z.inj. rewrite count_ceil by lia.
    unfold ceil_div, len. rewrite Z.div_1_r. lia.
Qed.

(** X6.  Chunking sees the words only: the text with its white space
    normalized (its words joined with single spaces) is chunked exactly as
    the text itself, for every [max_tokens], zero and negative included. *)
Theorem chunk_text_normalized_input (T : str) (N : Z) :
  chunk_text (join (lit " ") (split T)) N = chunk_text T N.
Proof.
  unfold chunk_text. now rewrite split_join by apply split_words.
Qed.

(** X7.  Chunking is stable: a chunk that [chunk_text] returned, chunked
    again with the same positive [max_tokens], comes back as the one and
    only chunk. *)
Theorem chunk_text_rechunk (T : str) (N : Z) (chunks : list str)
        (chunk : str) :
  (0 < N)%Z ->
  chunk_text T N = Ok chunks ->
  In chunk chunks ->
  chunk_text chunk N = Ok [chunk].
Proof.
  intros Hpos Hchunks Hin.
  destruct (@chunk_shape T N chunks chunk Hpos Hchunks Hin) as (ws & Hne & Hws & Hle & ->).
  now apply one_window.
Qed.

Lemma chunk_text_rechunk_witness :
  (0 < 2)%Z /\ chunk_text (lit "or not") 2 = Ok [lit "or not"].
Proof.
  split; [lia|].
  apply (@chunk_text_rechunk
           (lit " to be  or not to be ") 2
           [lit "to be"; lit "or not"; lit "to be"]);
    [lia | reflexivity | right; left; reflexivity].
Defined.

End ChunkerCompose.

(* ================================================================= *)
(** * Chunks of chunks *)

Module ChunkerRegroup.

Import JoinSplit Chunker ChunkerMore.

Lemma firstn_seq (b a n : nat) :
  firstn b (seq a n) = seq a (Nat.min b n).
Proof.
  revert a n; induction b as [|b IH]; intros a n; [reflexivity|].
  destruct n as [|n]; [reflexivity|].
  simpl. now rewrite IH.
Qed.

Lemma group_join_windows (items : list str) (size : Z) :
  (0 < size)%Z ->
  group_join items size
  = Ok (map (fun k => join (lit " ") (window (Z.to_nat size) items k))
            (seq 0 (count items size))).
Proof.
  intros Hpos. unfold group_join.
  rewrite range_positive by assumption.
  f_equal. rewrite map_map. apply map_ext.
  intros k. now rewrite slice_window.
Qed.

Lemma concat_windows_from (n : nat) (words : list str) (a b : nat) :
  List.concat (map (window n words) (seq a b))
  = firstn (b * n) (skipn (a * n) words).
Proof.
  induction b as [|b IH]; [reflexivity|].
  rewrite seq_S, map_app, concat_app, IH. simpl.
  rewrite app_nil_r. unfold window.
  replace (n + b * n) with (b * n + n) by lia.
  rewrite firstn_add, skipn_skipn. do 3 f_equal. lia.
Qed.

Lemma ceil_div_twice (L N M : Z) :
  (0 < N)%Z -> (0 < M)%Z ->
  ceil_div (ceil_div L N) M = ceil_div L (N * M).
Proof.
  intros HN HM. unfold ceil_div.
  replace ((L + N - 1) / N + M - 1)%Z
    with ((L + N - 1 + (M - 1) * N) / N)%Z
    by (rewrite Z.div_add by lia; lia).
  rewrite Z.div_div by lia. f_equal. lia.
Qed.

(** X8.  Chunk sizes compose: chunking a text with [N * M] words a chunk
    gives what one gets by chunking it with [N] words a chunk and then
    grouping those chunks [M] by [M] with the same comprehension. *)
Theorem chunk_text_regroup (T : str) (N M : Z) (small : list str) :
  (0 < N)%Z -> (0 < M)%Z ->
  chunk_text T N = Ok small ->
  chunk_text T (N * M) = group_join small M.
Proof.
  intros HN HM Hsmall.
  assert (HNM : (0 < N * M)%Z) by lia.
  rewrite chunk_text_windows in Hsmall by assumption.
  injection Hsmall as <-.
  rewrite chunk_text_windows, group_join_windows by assumption.
  set (words := split T).
  set (n := Z.to_nat N). set (m := Z.to_nat M).
  set (c := count words N).
  set (f := fun k => join (lit " ") (window n words k)).
  assert (Hn : 0 < n) by (unfold n; lia).
  assert (Hm : 0 < m) by (unfold m; lia).
  replace (Z.to_nat (N * M)) with (n * m) by (unfold n, m; lia).
  assert (Hcount : count (map f (seq 0 c)) M = count words (N * M)).
  { apply Nat2Z.inj. rewrite !count_ceil by assumption.
    unfold len at 1. rewrite length_map, length_seq.
    unfold c. rewrite count_ceil by assumption.
    now apply ceil_div_twice. }
  rewrite Hcount. f_equal. apply map_ext_in. intros k Hk.
  apply in_seq in Hk. rewrite <- Hcount in Hk.
  assert (Hc : 0 < c /\ (c - 1) * n < List.length words
               /\ List.length words <= c * n
               /\ k * m < c).
  { destruct (Nat.eq_dec c 0) as [E | E].
    - exfalso. rewrite E in Hk. simpl in Hk.
      change (@nil str) with (@nil (list char)) in Hk.
      rewrite count_nil in Hk. lia.
    - assert (Hwords : words <> []).
      { intro E'. apply E. unfold c. rewrite E'. apply count_nil. }
      destruct (@count_bounds words N HN Hwords) as (H1 & H2 & H3).
      fold n c in H2, H3.
      assert (Hsmall : map f (seq 0 c) <> []).
      { intro E'. apply (f_equal (@List.length str)) in E'.
        rewrite length_map, length_seq in E'. simpl in E'. lia. }
      destruct (@count_bounds (map f (seq 0 c)) M HM Hsmall)
        as (G1 & G2 & G3).
      fold m in G2, G3. rewrite length_map, length_seq in G2, G3.
      repeat split; try assumption; try lia.
      assert (k * m <= (count (map f (seq 0 c)) M - 1) * m)
        by (apply Nat.mul_le_mono_r; lia).
      lia. }
  destruct Hc as (Hc0 & Hlo & Hhi & Hkm).
  unfold window at 2.
  rewrite skipn_map, firstn_map, skipn_seq, firstn_seq. simpl (0 + _).
  set (b := Nat.min m (c - k * m)).
  assert (Hb : 0 < b) by (unfold b; lia).
  unfold f at 1. rewrite <- map_map.
  rewrite join_concat.
  - f_equal. rewrite concat_windows_from. unfold window.
    replace (k * (n * m)) with (k * m * n) by lia.
    destruct (Nat.le_gt_cases m (c - k * m)) as [Hfull | Hlast].
    + f_equal. unfold b. rewrite Nat.min_l by lia. lia.
    + assert (Hlen : List.length (skipn (k * m * n) words) <= b * n).
      { rewrite length_skipn. unfold b.
        rewrite Nat.min_r by lia.
        replace ((c - k * m) * n) with (c * n - k * m * n) by nia. lia. }
      assert (Hbn : b * n <= n * m).
      { unfold b. rewrite Nat.min_r by lia.
        rewrite (Nat.mul_comm n m). apply Nat.mul_le_mono_r. lia. }
      rewrite (@firstn_all2 _ (b * n)) by assumption.
      apply firstn_all2. lia.
  - rewrite Forall_forall. intros g Hg.
    apply in_map_iff in Hg as (j & <- & Hj). apply in_seq in Hj.
    intro E. apply (f_equal (@List.length str)) in E.
    rewrite length_window in E. simpl in E.
    assert (j < c) by (unfold b in Hj; lia).
    assert (j * n <= (c - 1) * n) by (apply Nat.mul_le_mono_r; lia).
    lia.
Qed.

Lemma chunk_text_regroup_witness :
  (0 < 2)%Z /\ (0 < 3)%Z
  /\ chunk_text (lit "a b c d e f g h i j k l m") (2 * 3)
     = group_join
         [lit "a b"; lit "c d"; lit "e f"; lit "g h"; lit "i j"; lit "k l";
          lit "m"] 3.
Proof.
  split; [lia|]. split; [lia|].
  apply chunk_text_regroup; [lia | lia | reflexivity].
Defined.

End ChunkerRegroup.

(* ================================================================= *)
(** * More on the loader *)

Module LoaderMore.

Import JoinSplit StripFacts Pipeline.

Lemma split_from_pending (s : str) (c : char) (cur : str) :
  split_from (c :: cur) s <> [].
Proof.
  revert c cur; induction s as [|d s IH]; intros c cur; simpl.
  - discriminate.
  - destruct (isspace d); [discriminate | apply IH].
Qed.

Lemma split_starts_with_word (c : char) (s : str) :
  isspace c = false -> split (c :: s) <> [].
Proof.
  intros Hc. unfold split. simpl. rewrite Hc. apply split_from_pending.
Qed.

(** Whatever [load_document] returns has at least one word. *)
Lemma returned_has_word (w : world) (url : str) (r : result str) :
  fetched w url r -> split (returned r) <> [].
Proof.
  intros Hf.
  destruct Hf as [e Hget | r e Hget Hst | r e Hget Hst Hsoup
                  | r visible Hget Hst Hsoup Hstrip
                  | r visible Hget Hst Hsoup Hstrip]; simpl.
  - apply split_starts_with_word; reflexivity.
  - apply split_starts_with_word; reflexivity.
  - apply split_starts_with_word; reflexivity.
  - vm_compute. discriminate.
  - rewrite split_strip. intro E. apply Hstrip.
    now apply strip_nil_iff, split_nil_iff.
Qed.

(** X9.  [load_document] never returns the empty string, and what it
    returns always has at least one word: with the default [max_tokens]
    the chunker then gives at least one chunk for it. *)
Theorem load_document_never_empty (w : world) (url : str) (st : state) :
  exists doc chunks,
    snd (load_document w url st) = Ok doc
    /\ doc <> []
    /\ split doc <> []
    /\ chunk_text doc default_max_tokens = Ok chunks
    /\ chunks <> [].
Proof.
  destruct (load_document_run w url) as (r & Hf & Hrun).
  pose proof (returned_has_word Hf) as Hword.
  destruct (chunk_text_default (returned r)) as [chunks Hchunks].
  exists (returned r), chunks.
  split; [now rewrite Hrun|].
  split; [intro E; now rewrite E in Hword|].
  split; [assumption|]. split; [assumption|].
  intro E. subst chunks.
  rewrite Chunker.chunk_text_windows in Hchunks by reflexivity.
  injection Hchunks as Hmap.
  apply (f_equal (@List.length str)) in Hmap.
  rewrite length_map, length_seq in Hmap. simpl in Hmap.
  destruct (@Chunker.count_bounds (split (returned r)) default_max_tokens)
    as (Hc & _); [reflexivity | assumption | lia].
Qed.

(** X10.  When the request, the status check and the extraction succeed:
    if the visible text is all white space, [load_document] returns the
    no-content sentinel; if not, it returns the visible text stripped,
    which is not empty, has nothing left to strip and has the very words
    of the visible text.  So the sentinel comes back in two cases only:
    the visible text is all white space, or it is, once stripped, the
    sentence of the sentinel itself. *)
Theorem load_document_on_success
        (w : world) (url : str) (st : state) (r : response) (visible : str) :
  requests_get w url = Ok r ->
  raise_for_status r = Ok tt ->
  soup_get_text w (text r) = Ok visible ->
  (forallb isspace visible = true ->
   snd (load_document w url st) = Ok no_content)
  /\ (forallb isspace visible = false ->
      snd (load_document w url st) = Ok (strip visible)
      /\ strip visible <> []
      /\ strip (strip visible) = strip visible
      /\ split (strip visible) = split visible)
  /\ (snd (load_document w url st) = Ok no_content
      <-> forallb isspace visible = true \/ strip visible = no_content).
Proof.
  intros Hget Hst Hsoup.
  rewrite (load_document_success w url st Hget Hst Hsoup). cbn [snd].
  assert (Hblank : forallb isspace visible = true ->
                   is_empty (strip visible) = true).
  { intros Hsp. apply strip_nil_iff in Hsp. now rewrite Hsp. }
  assert (Htext : forallb isspace visible = false ->
                  strip visible <> [] /\ is_empty (strip visible) = false).
  { intros Hsp.
    assert (Hne : strip visible <> []).
    { intro E. apply strip_nil_iff in E. congruence. }
    split; [assumption|].
    destruct (strip visible); [congruence | reflexivity]. }
  split; [|split].
  - intros Hsp. now rewrite (Hblank Hsp).
  - intros Hsp. destruct (Htext Hsp) as [Hne Hie].
    rewrite Hie. split; [reflexivity|]. split; [assumption|]. split.
    + destruct (strip_ends visible Hne)
        as (a & d & mid & Ha & Hd & [[Hs _] | Hs]).
      * rewrite Hs.
        now apply (@ChunkerMore.strip_fixed _ a a [] []).
      * rewrite Hs.
        apply (@ChunkerMore.strip_fixed _ a d (mid ++ [d]) (rev mid ++ [a]));
          try assumption; try reflexivity.
        rewrite (app_comm_cons mid [d] a), rev_app_distr. reflexivity.
    + apply split_strip.
  - destruct (forallb isspace visible) eqn:Hsp.
    + rewrite (Hblank eq_refl). split; [now left | reflexivity].
    + destruct (Htext eq_refl) as [_ Hie]. rewrite Hie. split.
      * intros [= E]. now right.
      * intros [Habs | E]; [discriminate | now rewrite E].
Qed.

Lemma load_document_on_success_witness :
  (forallb isspace (lit " hello  world ") = true ->
   snd (load_document world_backend_down sample_url (start None))
   = Ok no_content)
  /\ (forallb isspace (lit " hello  world ") = false ->
      snd (load_document world_backend_down sample_url (start None))
      = Ok (strip (lit " hello  world "))
      /\ strip (lit " hello  world ") <> []
      /\ strip (strip (lit " hello  world ")) = strip (lit " hello  world ")
      /\ split (strip (lit " hello  world ")) = split (lit " hello  world "))
  /\ (snd (load_document world_backend_down sample_url (start None))
      = Ok no_content
      <-> forallb isspace (lit " hello  world ") = true
          \/ strip (lit " hello  world ") = no_content).
Proof.
  apply (@load_document_on_success
           world_backend_down sample_url (start None)
           {| status_code := 200;
              text := lit "<p>hello world</p>";
              http_error_msg := [] |});
    reflexivity.
Defined.

(** X11.  An exception of the extraction is a fetch failure too: when the
    request and the status check succeed and the parser raises,
    [load_document] logs it and returns "Error loading document: " with
    the exception's text, and the run shows that string with [st.error]
    and stops there, the summary key being what lines 90 and 91 left. *)
Theorem extraction_failure_halts
        (w : world) (url : str) (slot : option str)
        (r : response) (e : exn) :
  is_empty url = false ->
  requests_get w url = Ok r ->
  raise_for_status r = Ok tt ->
  soup_get_text w (text r) = Raise e ->
  streamlit_mode w url true (start slot)
  = ({| summary := initialised slot;
        trace :=
          prologue ++ fetching
          ++ [ Call_load_document url;
               Logging_error (lit "Failed to load document: " ++ exn_str e);
               St_error (lit "Error loading document: " ++ exn_str e) ] |},
     Ok tt).
Proof.
  intros Hurl Hget Hst Hsoup.
  assert (Hload : forall st,
             load_document w url st
             = ({| summary := summary st;
                   trace := trace st
                            ++ [ Call_load_document url;
                                 Logging_error
                                   (lit "Failed to load document: "
                                    ++ exn_str e) ] |},
                Ok (lit "Error loading document: " ++ exn_str e))).
  { intros st.
    unfold load_document, clean_html, try_except, bind, lift, emit, ret.
    simpl. rewrite Hget, Hst, Hsoup. simpl.
    now rewrite <- app_assoc. }
  rewrite streamlit_mode_prologue, Hurl.
  unfold bind at 1. unfold emit at 1. unfold bind at 1.
  rewrite Hload.
  change (startswith (lit "Error loading document: " ++ exn_str e)
                     (lit "Error")) with true.
  unfold emit. flatten_trace. reflexivity.
Qed.

Lemma extraction_failure_halts_witness :
  streamlit_mode world_parser_fails sample_url true
                 (start (Some (lit "an earlier summary")))
  = ({| summary := Some (lit "an earlier summary");
        trace :=
          prologue ++ fetching
          ++ [ Call_load_document sample_url;
               Logging_error (lit "Failed to load document: parser error");
               St_error (lit "Error loading document: parser error") ] |},
     Ok tt).
Proof.
  apply (@extraction_failure_halts
           world_parser_fails sample_url (Some (lit "an earlier summary"))
           {| status_code := 200; text := lit "<p>"; http_error_msg := [] |}
           (Exception (lit "parser error")));
    reflexivity.
Defined.

End LoaderMore.

(* ================================================================= *)
(** * Whole runs of the front end *)

Module Runs.

Import JoinSplit Pipeline Traces.

Lemma render_summary_exact (w : world) (st : state) (v : str) :
  summary st = Some v ->
  render_summary w st
  = ({| summary := Some v; trace := trace st ++ render_events w v |},
     render_result w v).
Proof.
  intros Hv.
  unfold render_summary, render_events, render_result, generate_pdf,
    get_summary, bind, lift, emit, ret.
  rewrite Hv. destruct v as [|c v]; simpl.
  - now rewrite app_nil_r, <- Hv, state_eta.
  - rewrite Hv. destruct (pdf_output w (c :: v)) as [path|e]; simpl;
      flatten_trace; reflexivity.
Qed.

Lemma initialised_stored (slot : option str) :
  initialised slot = Some (stored slot).
Proof. now destruct slot. Qed.

(** A run that reaches line 106 has logged nothing while loading. *)
Lemma load_document_clean (w : world) (url doc : str) (st0 : state) :
  snd (load_document w url st0) = Ok doc ->
  startswith doc (lit "Error") = false ->
  forall st,
    load_document w url st
    = ({| summary := summary st;
          trace := trace st ++ [Call_load_document url] |}, Ok doc).
Proof.
  intros Hload Herr.
  destruct (load_document_run w url) as (r & _ & Hrun).
  rewrite Hrun in Hload. cbn [snd] in Hload. injection Hload as Hdoc.
  destruct r as [d|e]; simpl in Hdoc; subst doc.
  - intros st. now rewrite Hrun.
  - discriminate Herr.
Qed.

Lemma run_summarized_exact (w : world) (url doc : str) (slot : option str)
      (chunks : list str) :
  is_empty url = false ->
  snd (load_document w url (start slot)) = Ok doc ->
  startswith doc (lit "Error") = false ->
  build_chain w = Ok tt ->
  chunk_text doc default_max_tokens = Ok chunks ->
  streamlit_mode w url true (start slot)
  = ({| summary := Some (aggregate (summaries_from w 0 chunks));
        trace := prologue ++ fetching ++ [Call_load_document url]
                 ++ summarizing_events w doc chunks
                 ++ render_events w (aggregate (summaries_from w 0 chunks)) |},
     render_result w (aggregate (summaries_from w 0 chunks))).
Proof.
  intros Hurl Hload Herr Hchain Hchunks.
  rewrite streamlit_mode_prologue, Hurl.
  unfold bind at 1. unfold emit at 1. unfold bind at 1.
  rewrite (@load_document_clean w url doc (start slot) Hload Herr).
  rewrite Herr. unfold bind.
  rewrite (summarize_document_run w _ Hchain Hchunks).
  rewrite (@render_summary_exact
             w _ (aggregate (summaries_from w 0 chunks)));
    [|reflexivity].
  unfold summarizing_events. flatten_trace. reflexivity.
Qed.

Lemma run_idle_exact (w : world) (url : str) (clicked : bool)
      (slot : option str) :
  clicked = false \/ is_empty url = true ->
  streamlit_mode w url clicked (start slot)
  = ({| summary := Some (stored slot);
        trace := prologue
                 ++ (if clicked
                     then [St_warning (lit "Please enter a valid URL.")]
                     else [])
                 ++ render_events w (stored slot) |},
     render_result w (stored slot)).
Proof.
  intros Hidle. rewrite streamlit_mode_prologue.
  destruct clicked.
  - destruct Hidle as [Hc | Hu]; [discriminate | rewrite Hu].
    unfold bind, emit.
    rewrite (@render_summary_exact w _ (stored slot));
      [|apply initialised_stored].
    flatten_trace. reflexivity.
  - rewrite (@render_summary_exact w _ (stored slot));
      [|apply initialised_stored].
    reflexivity.
Qed.

Lemma invoked_app (t1 t2 : list event) :
  invoked (t1 ++ t2) = invoked t1 ++ invoked t2.
Proof. apply flat_map_app. Qed.

Lemma invoked_loop_events (w : world) (chunks : list str) :
  forall k, invoked (loop_events w k chunks) = chunks.
Proof.
  induction chunks as [|c rest IH]; intros k; [reflexivity|].
  simpl. unfold invoked in *. rewrite flat_map_app, IH.
  destruct (chain_invoke w k c); reflexivity.
Qed.

Lemma invoked_render (w : world) (v : str) :
  invoked (render_events w v) = [].
Proof.
  unfold render_events. destruct (is_empty v); [reflexivity|].
  destruct (pdf_output w v); reflexivity.
Qed.

Lemma invoked_summarized (w : world) (url doc v : str) (chunks : list str) :
  invoked (prologue ++ fetching ++ [Call_load_document url]
           ++ summarizing_events w doc chunks ++ render_events w v)
  = chunks.
Proof.
  unfold summarizing_events.
  rewrite !invoked_app, invoked_loop_events, invoked_render.
  unfold invoked, prologue, fetching. simpl.
  now rewrite ?app_nil_r.
Qed.

Lemma render_events_only (w : world) (v : str) :
  forallb is_render_event (render_events w v) = true.
Proof.
  unfold render_events. destruct (is_empty v); [reflexivity|].
  destruct (pdf_output w v); reflexivity.
Qed.

(** The entries of the loop, one per chunk: the [content] of the answer,
    or its [str] when it has none, or the placeholder when the call
    raised. *)
Lemma summaries_from_entries (w : world) (chunks : list str) :
  forall k,
    summaries_from w k chunks
    = map (fun kc =>
             match chain_invoke w (fst kc) (snd kc) with
             | Ok answer =>
                 match content answer with
                 | Some c => c
                 | None => message_str answer
                 end
             | Raise e => lit "Error processing chunk: " ++ exn_str e
             end)
          (combine (seq k (List.length chunks)) chunks).
Proof.
  induction chunks as [|c rest IH]; intros k; [reflexivity|].
  simpl. now rewrite IH.
Qed.

End Runs.

(* ================================================================= *)
(** * More on the front end *)

Module FrontEndMore.

Import JoinSplit Chunker Pipeline Traces Runs.

Lemma short_text_one_chunk (doc : str) :
  split doc <> [] ->
  (len (split doc) <= default_max_tokens)%Z ->
  chunk_text doc default_max_tokens = Ok [join (lit " ") (split doc)].
Proof.
  intros Hne Hle.
  rewrite chunk_text_windows by reflexivity.
  rewrite ChunkerMore.count_small by assumption.
  change (seq 0 1) with [0]. cbn [map].
  unfold window. change (0 * Z.to_nat default_max_tokens) with 0.
  cbn [skipn]. rewrite firstn_all2; [reflexivity|].
  unfold len in Hle. lia.
Qed.

Lemma loaded_has_word (w : world) (url doc : str) (st : state) :
  snd (load_document w url st) = Ok doc -> split doc <> [].
Proof.
  destruct (load_document_run w url) as (r & Hf & Hrun).
  rewrite Hrun. cbn [snd]. intros [= <-].
  now apply (@LoaderMore.returned_has_word w url).
Qed.

(** X12.  The chain is set up outside every [try]: when the document is
    loaded and line 107 raises, that exception leaves [streamlit_mode];
    the run has shown the two spinners and nothing else after the form,
    it has chunked nothing and called the backend for nothing, there is
    no success notice and no summary region, and the summary key is what
    lines 90 and 91 left. *)
Theorem chain_setup_failure_leaves_run
        (w : world) (url doc : str) (slot : option str) (e : exn) :
  is_empty url = false ->
  snd (load_document w url (start slot)) = Ok doc ->
  startswith doc (lit "Error") = false ->
  build_chain w = Raise e ->
  streamlit_mode w url true (start slot)
  = ({| summary := initialised slot;
        trace := prologue ++ fetching
                 ++ [ Call_load_document url;
                      St_spinner (lit "Summarizing...");
                      Call_setup_summarization_chain ] |},
     Raise e).
Proof.
  intros Hurl Hload Herr Hchain.
  rewrite streamlit_mode_prologue, Hurl.
  unfold bind at 1. unfold emit at 1. unfold bind at 1.
  rewrite (@load_document_clean w url doc (start slot) Hload Herr).
  rewrite Herr. unfold bind.
  rewrite (summarize_document_no_chain w _ _ Hchain).
  flatten_trace. reflexivity.
Qed.

Lemma chain_setup_failure_leaves_run_witness :
  streamlit_mode world_no_chain sample_url true
                 (start (Some (lit "an earlier summary")))
  = ({| summary := Some (lit "an earlier summary");
        trace := prologue ++ fetching
                 ++ [ Call_load_document sample_url;
                      St_spinner (lit "Summarizing...");
                      Call_setup_summarization_chain ] |},
     Raise (Exception (lit "No module named langchain_ollama"))).
Proof.
  apply (@chain_setup_failure_leaves_run
           world_no_chain sample_url (lit "hello world")
           (Some (lit "an earlier summary")));
    reflexivity.
Defined.

(** X13.  A run that fails at the fetch stage shows nothing of the summary
    region: no heading, no summary text, no PDF and no download button,
    even when the summary key holds the summary of an earlier run; it
    ends normally after the error box. *)
Theorem fetch_failure_hides_summary
        (w : world) (url doc : str) (slot : option str) :
  is_empty url = false ->
  snd (load_document w url (start slot)) = Ok doc ->
  startswith doc (lit "Error") = true ->
  forallb (fun ev => negb (is_render_event ev))
          (trace (fst (streamlit_mode w url true (start slot)))) = true
  /\ snd (streamlit_mode w url true (start slot)) = Ok tt.
Proof.
  intros Hurl Hload Herr.
  destruct (run_fetch_failed w url slot Hurl Hload Herr)
    as (log & -> & Hlog).
  cbn [fst snd trace]. split; [|reflexivity].
  rewrite !forallb_app. cbn [forallb]. rewrite forallb_app.
  assert (Hl : forallb (fun ev => negb (is_render_event ev)) log = true).
  { revert Hlog. apply forallb_impl. now intros []. }
  rewrite Hl. reflexivity.
Qed.

Lemma fetch_failure_hides_summary_witness :
  forallb (fun ev => negb (is_render_event ev))
          (trace (fst (streamlit_mode world_refused sample_url true
                                      (start (Some (lit "an earlier summary"))))))
  = true
  /\ snd (streamlit_mode world_refused sample_url true
                         (start (Some (lit "an earlier summary")))) = Ok tt.
Proof.
  apply (@fetch_failure_hides_summary
           world_refused sample_url
           (lit "Error loading document: Connection refused"));
    reflexivity.
Defined.

(** X14.  A run in which the button is not pressed, or is pressed with an
    empty URL, shows the stored summary again: after the form (and the
    warning, if the button was pressed) come exactly the events of the
    summary region for the stored summary, with a new PDF generated for it
    when it is not empty; the key keeps its value and the run ends as the
    summary region ends. *)
Theorem idle_run_shows_stored_summary
        (w : world) (url : str) (clicked : bool) (slot : option str) :
  clicked = false \/ is_empty url = true ->
  streamlit_mode w url clicked (start slot)
  = ({| summary := Some (stored slot);
        trace := prologue
                 ++ (if clicked
                     then [St_warning (lit "Please enter a valid URL.")]
                     else [])
                 ++ render_events w (stored slot) |},
     render_result w (stored slot)).
Proof. apply run_idle_exact. Qed.

Lemma idle_run_shows_stored_summary_witness :
  streamlit_mode world_refused sample_url false
                 (start (Some (lit "an earlier summary")))
  = ({| summary := Some (lit "an earlier summary");
        trace :=
          prologue
          ++ [ St_markdown (lit "### " ++ [128466; 65039]%N ++ lit " Summary");
               St_markdown (lit "an earlier summary");
               Call_generate_pdf (lit "an earlier summary");
               St_download_button
                 (128229%N :: lit " Download Summary as PDF")
                 (lit "/tmp/summary.pdf") ] |},
     Ok tt).
Proof.
  apply (@idle_run_shows_stored_summary
           world_refused sample_url false (Some (lit "an earlier summary"))).
  now left.
Defined.

(** X15.  In a run that reaches the summarizing stage and in which line
    107 returns the chain, the backend is called once for every chunk and
    for nothing else, in the order of the chunks: the chunks sent to the
    backend, read off the trace, are the list [chunk_text] returned.  A
    failed call is not tried again. *)
Theorem backend_calls_are_the_chunks
        (w : world) (url doc : str) (slot : option str)
        (chunks : list str) :
  is_empty url = false ->
  snd (load_document w url (start slot)) = Ok doc ->
  startswith doc (lit "Error") = false ->
  build_chain w = Ok tt ->
  chunk_text doc default_max_tokens = Ok chunks ->
  invoked (trace (fst (streamlit_mode w url true (start slot)))) = chunks.
Proof.
  intros Hurl Hload Herr Hchain Hchunks.
  rewrite (run_summarized_exact w url slot Hurl Hload Herr Hchain Hchunks).
  cbn [fst trace]. apply invoked_summarized.
Qed.

Lemma backend_calls_are_the_chunks_witness :
  invoked (trace (fst (streamlit_mode world_backend_down sample_url true
                                      (start None))))
  = [lit "hello world"].
Proof.
  apply (@backend_calls_are_the_chunks
           world_backend_down sample_url (lit "hello  world") None);
    reflexivity.
Defined.

End FrontEndMore.

(* ================================================================= *)
(** * Summarizing runs, from end to end *)

Module SummarizingRuns.

Import JoinSplit Chunker Pipeline Traces Runs FrontEndMore.

(** X16.  A run that reaches the summarizing stage, and in which line 107
    returns the chain, is fixed from end to end by the world: the form,
    the fetching spinner, the one call of the loader, the summarizing
    stage with one backend call per chunk and its success notice, then
    the summary region for the new aggregate; the summary key ends as
    that aggregate (one entry per chunk, a blank line between them: the
    answer's text, or the placeholder where the call raised) whatever it
    held before, and the run ends as the summary region ends. *)
Theorem summarizing_run_trace
        (w : world) (url doc : str) (slot : option str)
        (chunks : list str) :
  is_empty url = false ->
  snd (load_document w url (start slot)) = Ok doc ->
  startswith doc (lit "Error") = false ->
  build_chain w = Ok tt ->
  chunk_text doc default_max_tokens = Ok chunks ->
  let entries :=
    map (fun kc =>
           match chain_invoke w (fst kc) (snd kc) with
           | Ok answer =>
               match content answer with
               | Some c => c
               | None => message_str answer
               end
           | Raise e => lit "Error processing chunk: " ++ exn_str e
           end)
        (combine (seq 0 (List.length chunks)) chunks) in
  streamlit_mode w url true (start slot)
  = ({| summary := Some (blank_line_separated entries);
        trace := prologue ++ fetching ++ [Call_load_document url]
                 ++ summarizing_events w doc chunks
                 ++ render_events w (blank_line_separated entries) |},
     render_result w (blank_line_separated entries)).
Proof.
  intros Hurl Hload Herr Hchain Hchunks entries. unfold entries.
  rewrite <- summaries_from_entries, <- aggregate_separated.
  now apply run_summarized_exact.
Qed.

Lemma summarizing_run_trace_witness :
  streamlit_mode world_pdf_fails sample_url true
                 (start (Some (lit "an earlier summary")))
  = ({| summary := Some (lit "A summary.");
        trace :=
          prologue ++ fetching ++ [Call_load_document sample_url]
          ++ [ St_spinner (lit "Summarizing...");
               Call_setup_summarization_chain;
               Call_chunk_text (lit "hello world");
               Call_invoke (lit "hello world");
               St_success (9989%N :: lit " Summary generated successfully!");
               St_markdown (lit "### " ++ [128466; 65039]%N ++ lit " Summary");
               St_markdown (lit "A summary.");
               Call_generate_pdf (lit "A summary.") ] |},
     Raise (Exception (lit "latin-1 codec error"))).
Proof.
  apply (@summarizing_run_trace
           world_pdf_fails sample_url (lit "hello world")
           (Some (lit "an earlier summary")) [lit "hello world"]);
    reflexivity.
Defined.

(** The entries of the loop when every call raises. *)
Lemma summaries_when_all_fail (w : world) (failure : nat -> str -> exn)
      (chunks : list str) :
  (forall k chunk, chain_invoke w k chunk = Raise (failure k chunk)) ->
  forall k,
    summaries_from w k chunks
    = map (fun kc => lit "Error processing chunk: "
                     ++ exn_str (failure (fst kc) (snd kc)))
          (combine (seq k (List.length chunks)) chunks).
Proof.
  intros Hdown. induction chunks as [|c rest IH]; intros k; [reflexivity|].
  simpl. unfold chunk_summary. rewrite Hdown, IH. reflexivity.
Qed.

(** X17.  The success notice does not depend on the backend: in a run that
    reaches the summarizing stage with the chain set up, while every
    backend call raises, the notice is shown all the same, one error is
    logged per chunk, and the summary key receives one placeholder per
    chunk, "Error processing chunk: " followed by the text of that call's
    exception, with a blank line between them. *)
Theorem success_notice_when_backend_down
        (w : world) (url doc : str) (slot : option str)
        (chunks : list str) (failure : nat -> str -> exn) :
  is_empty url = false ->
  snd (load_document w url (start slot)) = Ok doc ->
  startswith doc (lit "Error") = false ->
  build_chain w = Ok tt ->
  chunk_text doc default_max_tokens = Ok chunks ->
  (forall k chunk, chain_invoke w k chunk = Raise (failure k chunk)) ->
  let final := fst (streamlit_mode w url true (start slot)) in
  existsb is_success (trace final) = true
  /\ List.length (logged_errors (trace final)) = List.length chunks
  /\ summary final
     = Some (blank_line_separated
               (map (fun kc => lit "Error processing chunk: "
                               ++ exn_str (failure (fst kc) (snd kc)))
                    (combine (seq 0 (List.length chunks)) chunks))).
Proof.
  intros Hurl Hload Herr Hchain Hchunks Hdown final.
  unfold final.
  rewrite (run_summarized_exact w url slot Hurl Hload Herr Hchain Hchunks).
  cbn [fst summary trace].
  split; [|split].
  - apply existsb_exists.
    exists (St_success (9989%N :: lit " Summary generated successfully!")).
    split; [|reflexivity].
    apply in_or_app; right. apply in_or_app; right.
    apply in_or_app; right. apply in_or_app; left.
    unfold summarizing_events.
    apply in_or_app; right. apply in_or_app; right. now left.
  - unfold logged_errors, summarizing_events.
    rewrite !flat_map_app, !length_app.
    assert (Hloop : forall cs k,
               List.length
                 (flat_map (fun ev => match ev with
                                      | Logging_error msg => [msg]
                                      | _ => []
                                      end) (loop_events w k cs))
               = List.length cs).
    { induction cs as [|c cs IH]; intros k; [reflexivity|].
      simpl. rewrite Hdown. simpl. now rewrite IH. }
    assert (Hrender : forall v,
               flat_map (fun ev => match ev with
                                   | Logging_error msg => [msg]
                                   | _ => []
                                   end) (render_events w v) = []).
    { intros v. unfold render_events. destruct (is_empty v); [reflexivity|].
      destruct (pdf_output w v); reflexivity. }
    rewrite Hloop, Hrender. simpl. lia.
  - rewrite aggregate_separated.
    now rewrite (summaries_when_all_fail w failure chunks Hdown).
Qed.

Lemma success_notice_when_backend_down_witness :
  let final :=
    fst (streamlit_mode world_backend_down sample_url true (start None)) in
  existsb is_success (trace final) = true
  /\ List.length (logged_errors (trace final)) = 1
  /\ summary final
     = Some (lit "Error processing chunk: connection refused").
Proof.
  apply (@success_notice_when_backend_down
           world_backend_down sample_url (lit "hello  world") None
           [lit "hello world"]
           (fun _ _ => Exception (lit "connection refused")));
    try reflexivity.
Defined.

(** X18.  When the aggregate of a summarizing run is the empty string
    (the backend answered the only chunk with an empty text), the key is
    set to the empty string and the success notice is the last thing
    shown: the summary region shows nothing and no PDF is generated.  The
    run is one in which line 107 returned the chain. *)
Theorem empty_aggregate_shows_nothing
        (w : world) (url doc : str) (slot : option str)
        (chunks : list str) :
  is_empty url = false ->
  snd (load_document w url (start slot)) = Ok doc ->
  startswith doc (lit "Error") = false ->
  build_chain w = Ok tt ->
  chunk_text doc default_max_tokens = Ok chunks ->
  aggregate (summaries_from w 0 chunks) = [] ->
  streamlit_mode w url true (start slot)
  = ({| summary := Some [];
        trace := prologue ++ fetching ++ [Call_load_document url]
                 ++ summarizing_events w doc chunks |},
     Ok tt).
Proof.
  intros Hurl Hload Herr Hchain Hchunks Hempty.
  rewrite (run_summarized_exact w url slot Hurl Hload Herr Hchain Hchunks).
  rewrite Hempty. unfold render_events, render_result. simpl.
  now rewrite app_nil_r.
Qed.

Lemma empty_aggregate_shows_nothing_witness :
  streamlit_mode world_silent_backend sample_url true
                 (start (Some (lit "an earlier summary")))
  = ({| summary := Some [];
        trace := prologue ++ fetching ++ [Call_load_document sample_url]
                 ++ summarizing_events world_silent_backend
                      (lit "hello world") [lit "hello world"] |},
     Ok tt).
Proof.
  apply (@empty_aggregate_shows_nothing
           world_silent_backend sample_url (lit "hello world")
           (Some (lit "an earlier summary")) [lit "hello world"]);
    reflexivity.
Defined.

(** X19.  A document of at most 500 words is summarized in one call: when
    line 107 returns the chain, the backend is called once, on the
    document with its white space normalized, and the summary key
    receives the entry of that one call: the [content] of the answer, or
    its [str] when it has no [content], or the placeholder if the call
    raised. *)
Theorem short_document_one_call
        (w : world) (url doc : str) (slot : option str) :
  is_empty url = false ->
  snd (load_document w url (start slot)) = Ok doc ->
  startswith doc (lit "Error") = false ->
  build_chain w = Ok tt ->
  (len (split doc) <= 500)%Z ->
  let final := fst (streamlit_mode w url true (start slot)) in
  let chunk := join (lit " ") (split doc) in
  invoked (trace final) = [chunk]
  /\ summary final
     = Some (match chain_invoke w 0 chunk with
             | Ok answer =>
                 match content answer with
                 | Some c => c
                 | None => message_str answer
                 end
             | Raise e => lit "Error processing chunk: " ++ exn_str e
             end).
Proof.
  intros Hurl Hload Herr Hchain Hshort final chunk.
  assert (Hchunks : chunk_text doc default_max_tokens = Ok [chunk]).
  { apply short_text_one_chunk; [|assumption].
    exact (loaded_has_word w url (start slot) Hload). }
  unfold final.
  rewrite (run_summarized_exact w url slot Hurl Hload Herr Hchain Hchunks).
  cbn [fst summary trace]. split.
  - apply invoked_summarized.
  - cbn [summaries_from]. rewrite aggregate_cons, app_nil_r.
    unfold chunk_summary, result_text. reflexivity.
Qed.

Lemma short_document_one_call_witness :
  let final :=
    fst (streamlit_mode world_not_modified sample_url true (start None)) in
  invoked (trace final) = [lit "hello world"]
  /\ summary final = Some (lit "hello world").
Proof.
  apply (@short_document_one_call
           world_not_modified sample_url (lit "hello world") None);
    try reflexivity.
  vm_compute. discriminate.
Defined.

(** X20.  The summary survives the next execution of the script: after a
    run that reached the summarizing stage with the chain set up, an
    execution in which the button is not pressed leaves the key at the
    aggregate of that run (the entries of the chunks, a blank line
    between them) and shows exactly the summary region for it, in
    whatever world it runs. *)
Theorem summary_survives_rerun
        (w w' : world) (url url' doc : str) (slot : option str)
        (chunks : list str) :
  is_empty url = false ->
  snd (load_document w url (start slot)) = Ok doc ->
  startswith doc (lit "Error") = false ->
  build_chain w = Ok tt ->
  chunk_text doc default_max_tokens = Ok chunks ->
  let first := fst (streamlit_mode w url true (start slot)) in
  let entries :=
    map (fun kc =>
           match chain_invoke w (fst kc) (snd kc) with
           | Ok answer =>
               match content answer with
               | Some c => c
               | None => message_str answer
               end
           | Raise e => lit "Error processing chunk: " ++ exn_str e
           end)
        (combine (seq 0 (List.length chunks)) chunks) in
  streamlit_mode w' url' false (start (summary first))
  = ({| summary := Some (blank_line_separated entries);
        trace := prologue
                 ++ render_events w' (blank_line_separated entries) |},
     render_result w' (blank_line_separated entries)).
Proof.
  intros Hurl Hload Herr Hchain Hchunks first entries.
  unfold first, entries.
  rewrite (run_summarized_exact w url slot Hurl Hload Herr Hchain Hchunks).
  cbn [fst summary].
  rewrite (@run_idle_exact w' url' false) by now left.
  now rewrite aggregate_separated, summaries_from_entries.
Qed.

Lemma summary_survives_rerun_witness :
  streamlit_mode world_refused [] false
                 (start (summary
                           (fst (streamlit_mode world_not_modified sample_url
                                                true (start None)))))
  = ({| summary := Some (lit "hello world");
        trace := prologue ++ render_events world_refused (lit "hello world") |},
     render_result world_refused (lit "hello world")).
Proof.
  apply (@summary_survives_rerun
           world_not_modified world_refused sample_url [] (lit "hello world")
           None [lit "hello world"]);
    reflexivity.
Defined.

End SummarizingRuns.

(* ================================================================= *)
(** * The cells of the PDF *)

Module PdfCells.

Import JoinSplit Traces.

Lemma split_on_from_not_nil (sep : char) (s cur : str) :
  split_on_from sep cur s <> [].
Proof.
  revert cur; induction s as [|c s IH]; intros cur; simpl.
  - discriminate.
  - destruct (c =? sep)%N; [discriminate | apply IH].
Qed.

Lemma join_cons_rest (sep x : str) (r : list str) :
  r <> [] -> join sep (x :: r) = x ++ sep ++ join sep r.
Proof.
  destruct r as [|y r]; [congruence|]. intros _. apply join_cons_cons.
Qed.

Lemma join_split_on_from (sep : char) (s cur : str) :
  join [sep] (split_on_from sep cur s) = rev cur ++ s.
Proof.
  revert cur; induction s as [|c s IH]; intros cur; simpl.
  - rewrite join_cons. simpl. reflexivity.
  - destruct (c =? sep)%N eqn:E.
    + apply N.eqb_eq in E. subst c.
      rewrite join_cons_rest by apply split_on_from_not_nil.
      rewrite IH. reflexivity.
    + rewrite IH. simpl. now rewrite <- app_assoc.
Qed.

Lemma split_on_from_clean (sep : char) (s cur : str) :
  ~ In sep cur ->
  Forall (fun piece => ~ In sep piece) (split_on_from sep cur s).
Proof.
  revert cur; induction s as [|c s IH]; intros cur Hcur; simpl.
  - constructor; [|constructor]. intro H. apply Hcur. now apply in_rev.
  - destruct (c =? sep)%N eqn:E.
    + constructor; [|apply IH; intros []].
      intro H. apply Hcur. now apply in_rev.
    + apply IH. intros [H | H]; [|now apply Hcur].
      apply N.eqb_neq in E. congruence.
Qed.

Lemma length_split_on_from (sep : char) (s cur : str) :
  List.length (split_on_from sep cur s) = S (count_occ N.eq_dec s sep).
Proof.
  revert cur; induction s as [|c s IH]; intros cur; simpl; [reflexivity|].
  destruct (c =? sep)%N eqn:E.
  - apply N.eqb_eq in E. subst c.
    destruct (N.eq_dec sep sep) as [_ | Hn]; [|congruence].
    simpl. now rewrite IH.
  - apply N.eqb_neq in E.
    destruct (N.eq_dec c sep) as [He | _]; [congruence|]. apply IH.
Qed.

Lemma split_on_from_app (sep : char) (a b cur : str) :
  split_on_from sep cur (a ++ sep :: b)
  = split_on_from sep cur a ++ split_on sep b.
Proof.
  revert cur; induction a as [|c a IH]; intros cur; simpl.
  - now rewrite N.eqb_refl.
  - destruct (c =? sep)%N; [now rewrite IH | apply IH].
Qed.

Lemma split_on_cons_sep (sep : char) (x : str) :
  split_on sep (sep :: x) = [] :: split_on sep x.
Proof.
  unfold split_on. simpl. now rewrite N.eqb_refl.
Qed.

Lemma split_on_aggregate (s : str) (rest : list str) :
  split_on newline
           (s ++ List.concat (map (fun t => blank_line ++ t) rest))
  = split_on newline s
    ++ flat_map (fun t => [] :: split_on newline t) rest.
Proof.
  revert s; induction rest as [|t rest IH]; intros s.
  - simpl. now rewrite !app_nil_r.
  - cbn [map List.concat flat_map].
    set (X := List.concat (map (fun t0 => blank_line ++ t0) rest)) in *.
    assert (E : s ++ (blank_line ++ t) ++ X
                = s ++ newline :: (newline :: t ++ X)) by reflexivity.
    rewrite E. unfold split_on at 1. rewrite split_on_from_app.
    rewrite split_on_cons_sep, IH. reflexivity.
Qed.

Lemma cell_texts_calls (summary_text : str) :
  cell_texts (generate_pdf_calls summary_text)
  = split_on newline summary_text.
Proof.
  unfold cell_texts, generate_pdf_calls.
  rewrite !flat_map_app. simpl. rewrite app_nil_r.
  induction (split_on newline summary_text) as [|x l IH]; [reflexivity|].
  simpl. now rewrite IH.
Qed.

(** X21.  [generate_pdf] hands the whole summary to the layout, cut at the
    line breaks and nowhere else: the texts of its [multi_cell] calls,
    joined with line breaks, are the summary text; no cell text holds a
    line break; and there is one cell more than there are line breaks, so
    at least one cell, even for an empty summary. *)
Theorem pdf_cells_are_the_lines (summary_text : str) :
  let cells := cell_texts (generate_pdf_calls summary_text) in
  join [newline] cells = summary_text
  /\ Forall (fun cell => ~ In newline cell) cells
  /\ List.length cells = S (count_occ N.eq_dec summary_text newline).
Proof.
  intros cells. unfold cells. rewrite cell_texts_calls. unfold split_on.
  split; [|split].
  - apply (join_split_on_from newline summary_text []).
  - apply split_on_from_clean. intros [].
  - apply length_split_on_from.
Qed.

(** X22.  In the PDF of an aggregate, the summaries of the chunks follow
    one another in order, the cells of each summary being its own lines,
    and the blank-line separator before every summary but the first
    becomes exactly one empty cell. *)
Theorem pdf_cells_of_aggregate (s : str) (rest : list str) :
  cell_texts (generate_pdf_calls (aggregate (s :: rest)))
  = split_on newline s
    ++ flat_map (fun t => [] :: split_on newline t) rest.
Proof.
  rewrite cell_texts_calls, aggregate_cons. apply split_on_aggregate.
Qed.

End PdfCells.

(* ================================================================= *)
(** * Fault containment in the summarizing loop *)

Module FaultContainment.

Import JoinSplit Pipeline Traces Runs.

(** The entries of the loop when the call for the chunk at position [i]
    raises [e] and the call for every other position [j] returns
    [answers j]. *)
Lemma summaries_with_one_failure
      (w : world) (chunks : list str) (i : nat) (ci : str) (e : exn)
      (answers : nat -> message) :
  nth_error chunks i = Some ci ->
  chain_invoke w i ci = Raise e ->
  (forall j cj, j <> i -> nth_error chunks j = Some cj ->
                chain_invoke w j cj = Ok (answers j)) ->
  summaries_from w 0 chunks
  = map (fun j => if Nat.eqb j i
                  then lit "Error processing chunk: " ++ exn_str e
                  else match content (answers j) with
                       | Some c => c
                       | None => message_str (answers j)
                       end)
        (seq 0 (List.length chunks)).
Proof.
  intros Hi Hfail Hothers. apply nth_error_ext. intros j.
  rewrite nth_error_summaries_from, nth_error_map, nth_error_seq.
  cbn [Nat.add].
  destruct (j <? List.length chunks) eqn:Hj.
  - apply Nat.ltb_lt in Hj.
    destruct (nth_error chunks j) as [cj|] eqn:Hcj;
      [|apply nth_error_None in Hcj; lia].
    cbn [option_map]. f_equal. unfold chunk_summary.
    destruct (Nat.eqb j i) eqn:Hji.
    + apply Nat.eqb_eq in Hji. subst j.
      rewrite Hi in Hcj. injection Hcj as <-. now rewrite Hfail.
    + apply Nat.eqb_neq in Hji.
      now rewrite (Hothers j cj Hji Hcj).
  - apply Nat.ltb_ge in Hj.
    replace (nth_error chunks j) with (@None str)
      by (symmetry; now apply nth_error_None).
    reflexivity.
Qed.

(** C3.  Take a run that reaches the summarizing stage (the document is
    loaded, line 107 returns the chain) in which the backend call for the
    chunk at position [i] raises [e] and the call for every other
    position [j] returns [answers j].  The failure stays inside the loop:
    every chunk is sent to the backend, once and in order; the success
    notice is shown; and the summary key receives one entry per chunk
    with a blank line between them, the entry at position [i] being the
    placeholder "Error processing chunk: " with the text of [e] and
    every other entry being the text of that chunk's answer.  After that
    the run ends as the PDF of this summary ends: normally when the
    layout returns, and when the run raises it is the layout that
    raised, never the failed chunk. *)
Theorem chunk_failure_is_contained
        (w : world) (url doc : str) (slot : option str)
        (chunks : list str) (i : nat) (ci : str) (e : exn)
        (answers : nat -> message) :
  is_empty url = false ->
  snd (load_document w url (start slot)) = Ok doc ->
  startswith doc (lit "Error") = false ->
  build_chain w = Ok tt ->
  chunk_text doc default_max_tokens = Ok chunks ->
  nth_error chunks i = Some ci ->
  chain_invoke w i ci = Raise e ->
  (forall j cj, j <> i -> nth_error chunks j = Some cj ->
                chain_invoke w j cj = Ok (answers j)) ->
  let entries :=
    map (fun j => if Nat.eqb j i
                  then lit "Error processing chunk: " ++ exn_str e
                  else match content (answers j) with
                       | Some c => c
                       | None => message_str (answers j)
                       end)
        (seq 0 (List.length chunks)) in
  let run := streamlit_mode w url true (start slot) in
  summary (fst run) = Some (blank_line_separated entries)
  /\ invoked (trace (fst run)) = chunks
  /\ existsb is_success (trace (fst run)) = true
  /\ (forall pdf_path,
        pdf_output w (blank_line_separated entries) = Ok pdf_path ->
        snd run = Ok tt)
  /\ (forall err,
        snd run = Raise err ->
        pdf_output w (blank_line_separated entries) = Raise err).
Proof.
  intros Hurl Hload Herr Hchain Hchunks Hi Hfail Hothers entries run.
  unfold run.
  rewrite (run_summarized_exact w url slot Hurl Hload Herr Hchain Hchunks).
  rewrite aggregate_separated.
  rewrite (summaries_with_one_failure w chunks answers Hi Hfail Hothers).
  fold entries. cbn [fst snd summary trace].
  split; [reflexivity|]. split; [apply invoked_summarized|]. split; [|split].
  - apply existsb_exists.
    exists (St_success (9989%N :: lit " Summary generated successfully!")).
    split; [|reflexivity].
    apply in_or_app; right. apply in_or_app; right.
    apply in_or_app; right. apply in_or_app; left.
    unfold summarizing_events.
    apply in_or_app; right. apply in_or_app; right. now left.
  - intros pdf_path Hpdf. unfold render_result.
    destruct (is_empty (blank_line_separated entries)); [reflexivity|].
    now rewrite Hpdf.
  - intros err. unfold render_result.
    destruct (is_empty (blank_line_separated entries)); [discriminate|].
    destruct (pdf_output w (blank_line_separated entries));
      [discriminate|].
    now intros [= ->].
Qed.

Lemma chunk_failure_is_contained_witness :
  summary (fst (streamlit_mode world_second_call_fails sample_url true
                               (start None)))
  = Some (lit "A summary." ++ blank_line
          ++ lit "Error processing chunk: model timed out" ++ blank_line
          ++ lit "A summary.")
  /\ invoked (trace (fst (streamlit_mode world_second_call_fails sample_url
                                         true (start None))))
     = long_text_chunks
  /\ existsb is_success
             (trace (fst (streamlit_mode world_second_call_fails sample_url
                                         true (start None)))) = true
  /\ snd (streamlit_mode world_second_call_fails sample_url true (start None))
     = Ok tt.
Proof.
  destruct (@chunk_failure_is_contained
              world_second_call_fails sample_url (strip long_text) None
              long_text_chunks 1 five_hundred_words
              (Exception (lit "model timed out"))
              (fun _ => plain_message (lit "A summary.")))
    as (Hkey & Hcalls & Hnotice & Hreturns & _).
  - reflexivity.
  - vm_compute; reflexivity.
  - vm_compute; reflexivity.
  - reflexivity.
  - vm_compute; reflexivity.
  - reflexivity.
  - reflexivity.
  - intros j cj Hj _. destruct j as [|[|j]];
      [reflexivity | congruence | reflexivity].
  - split; [exact Hkey|]. split; [exact Hcalls|]. split; [exact Hnotice|].
    apply (Hreturns (lit "/tmp/summary.pdf")). reflexivity.
Defined.

(** The same run with a PDF layout that fails: the entries are in the
    summary key all the same, and the exception that leaves the run is the
    layout's. *)
Lemma chunk_failure_then_pdf_failure :
  summary (fst (streamlit_mode world_second_call_and_pdf_fail sample_url true
                               (start None)))
  = Some (lit "A summary." ++ blank_line
          ++ lit "Error processing chunk: model timed out" ++ blank_line
          ++ lit "A summary.")
  /\ snd (streamlit_mode world_second_call_and_pdf_fail sample_url true
                         (start None))
     = Raise (Exception (lit "latin-1 codec error")).
Proof.
  split; vm_compute; reflexivity.
Qed.

End FaultContainment.
